(** * KBMAPI: the Moray access layer and the PIV token / recovery
      configuration endpoints

    A shallow embedding of [lib/apis/moray.js], [lib/endpoints/pivtokens.js]
    and the recovery-configurations endpoints, with the properties the
    specification states about them.

    JavaScript values are a tagged union; objects are association lists in
    insertion order (what [Object.keys] and [for .. in] enumerate; the
    engine's reordering of integer-like keys is not modelled).  Numbers are
    integers.  Strings are sequences of 8-bit code units.  A thrown
    [TypeError] is the [Throw] result. *)

From Stdlib Require Import ZArith String Ascii List Bool DecimalString Lia.
From stdpp Require Import gmap strings list.

Open Scope string_scope.
Open Scope Z_scope.
Open Scope list_scope.


Set Warnings "-register-all".

(** ** JavaScript values *)

Module Js.

Inductive JsVal : Type :=
| JUndefined
| JNull
| JBool (b : bool)
| JNum (n : Z)
| JStr (s : string)
| JArr (elems : list JsVal)
| JObj (fields : list (string * JsVal)).

(** The fields of an object, by name. *)
Abbreviation Obj := (list (string * JsVal)).

(** A function either returns or throws. *)
Inductive Result (A : Type) : Type :=
| Ok (a : A)
| Throw (what : string).
Arguments Ok {A} a.
Arguments Throw {A} what.

Definition rbind {A B} (r : Result A) (k : A -> Result B) : Result B :=
  match r with
  | Ok a => k a
  | Throw e => Throw e
  end.

Notation "'try' x := c 'in' k" := (rbind c (fun x => k))
  (at level 10, x name, c at level 100, k at level 200).

Fixpoint rmap {A B} (f : A -> Result B) (l : list A) : Result (list B) :=
  match l with
  | [] => Ok []
  | a :: l' => try b := f a in try bs := rmap f l' in Ok (b :: bs)
  end.

(** [for (x of xs) acc = f(acc, x)] where [f] may throw *)
Fixpoint rfold {A B} (f : A -> B -> Result A) (l : list B) (a : A) : Result A :=
  match l with
  | [] => Ok a
  | b :: l' => try a' := f a b in rfold f l' a'
  end.

(** [typeof] *)
Inductive JsType := TUndefined | TObject | TBoolean | TNumber | TString.

Definition typeof (v : JsVal) : JsType :=
  match v with
  | JUndefined => TUndefined
  | JNull => TObject
  | JBool _ => TBoolean
  | JNum _ => TNumber
  | JStr _ => TString
  | JArr _ => TObject
  | JObj _ => TObject
  end.

Definition is_object (v : JsVal) : bool :=
  match typeof v with TObject => true | _ => false end.

(** [!!v] *)
Definition truthy (v : JsVal) : bool :=
  match v with
  | JUndefined | JNull => false
  | JBool b => b
  | JNum n => negb (n =? 0)
  | JStr s => negb (String.eqb s "")
  | JArr _ | JObj _ => true
  end.

(** *** Own properties *)

Fixpoint get (k : string) (o : Obj) : option JsVal :=
  match o with
  | [] => None
  | (k', v) :: o' => if String.eqb k k' then Some v else get k o'
  end.

Definition hasOwnProperty (o : Obj) (k : string) : bool :=
  match get k o with Some _ => true | None => false end.

(** [self.hasOwnProperty(k)], written as a method call on the object: the
    method is looked up on the object first, so a property of its own named
    [hasOwnProperty] hides the inherited one, and, no value here being a
    function, the call throws.  [self] is the expression the code calls it
    on, for the message. *)
Definition call_hasOwnProperty (self : string) (o : Obj) (k : string) : Result bool :=
  if hasOwnProperty o "hasOwnProperty" then
    Throw ("TypeError: " +:+ self +:+ ".hasOwnProperty is not a function")
  else Ok (hasOwnProperty o k).

(** [o[k]], [undefined] when absent *)
Definition prop (o : Obj) (k : string) : JsVal :=
  match get k o with Some v => v | None => JUndefined end.

(** [o[k] = v]: an existing property keeps its place, a new one goes last. *)
Fixpoint set (k : string) (v : JsVal) (o : Obj) : Obj :=
  match o with
  | [] => [(k, v)]
  | (k', v') :: o' =>
      if String.eqb k k' then (k', v) :: o' else (k', v') :: set k v o'
  end.

(** [delete o[k]] *)
Fixpoint del (k : string) (o : Obj) : Obj :=
  match o with
  | [] => []
  | (k', v') :: o' =>
      if String.eqb k k' then del k o' else (k', v') :: del k o'
  end.

(** [Object.keys(o)] *)
Definition keys (o : Obj) : list string := map fst o.

(** *** Strings *)

Definition comma : ascii := ","%char.

Definition string_of_Z (n : Z) : string :=
  NilEmpty.string_of_int (Z.to_int n).

(** [s.indexOf(',') !== -1] *)
Fixpoint has_comma (s : string) : bool :=
  match s with
  | EmptyString => false
  | String c s' => if Ascii.eqb c comma then true else has_comma s'
  end.

(** [ss.join(',')] on strings *)
Fixpoint join_comma (ss : list string) : string :=
  match ss with
  | [] => ""
  | [s] => s
  | s :: ss' => s +:+ String comma (join_comma ss')
  end.

Definition concat_strings (ss : list string) : string :=
  fold_right String.append "" ss.

(** [ToString]; arrays print as their elements joined by commas, with
    [null] and [undefined] elements printing as nothing. *)
Fixpoint to_string (v : JsVal) : string :=
  match v with
  | JUndefined => "undefined"
  | JNull => "null"
  | JBool true => "true"
  | JBool false => "false"
  | JNum n => string_of_Z n
  | JStr s => s
  | JArr l =>
      join_comma
        ((fix elems (l : list JsVal) : list string :=
            match l with
            | [] => []
            | JUndefined :: l' => "" :: elems l'
            | JNull :: l' => "" :: elems l'
            | x :: l' => to_string x :: elems l'
            end) l)
  | JObj _ => "[object Object]"
  end.

Definition elem_to_string (v : JsVal) : string :=
  match v with
  | JUndefined | JNull => ""
  | _ => to_string v
  end.

(** [arr.join(',')] *)
Definition join (arr : list JsVal) : string :=
  join_comma (map elem_to_string arr).

(** [s.split(',')]: the accumulator holds the piece being read. *)
Fixpoint split_comma_from (acc : string) (s : string) : list string :=
  match s with
  | EmptyString => [acc]
  | String c s' =>
      if Ascii.eqb c comma then acc :: split_comma_from "" s'
      else split_comma_from (acc +:+ String c "") s'
  end.

Definition split_comma (s : string) : list string := split_comma_from "" s.

(** [s.replace(/^,/, '')] *)
Definition strip_leading_comma (s : string) : string :=
  match s with
  | String c s' => if Ascii.eqb c comma then s' else s
  | EmptyString => s
  end.

(** [s.replace(/,$/, '')] *)
Fixpoint strip_trailing_comma (s : string) : string :=
  match s with
  | EmptyString => ""
  | String c EmptyString => if Ascii.eqb c comma then "" else s
  | String c s' => String c (strip_trailing_comma s')
  end.

(** [\s] on 8-bit code units: tab, line feed, vertical tab, form feed,
    carriage return, space, no-break space. *)
Definition is_space (c : ascii) : bool :=
  let n := nat_of_ascii c in
  ((9 <=? n) && (n <=? 13) || (n =? 32) || (n =? 160))%nat.

Fixpoint skip_spaces (s : string) : string :=
  match s with
  | String c s' => if is_space c then skip_spaces s' else s
  | EmptyString => s
  end.

(** A match of [\s*,] at the head of [s]: what follows the comma. *)
Definition match_spaces_comma (s : string) : option string :=
  match skip_spaces s with
  | String c s' => if Ascii.eqb c comma then Some s' else None
  | EmptyString => None
  end.

(** [s.split(/\s*,\s*/)]: at each position the separator is tried first;
    on a match the piece read so far is emitted and reading resumes after
    the blanks that follow the comma. *)
Fixpoint split_sep_from (fuel : nat) (acc : string) (s : string) : list string :=
  match fuel with
  | O => [acc +:+ s]
  | S fuel' =>
      match match_spaces_comma s with
      | Some rest => acc :: split_sep_from fuel' "" (skip_spaces rest)
      | None =>
          match s with
          | EmptyString => [acc]
          | String c s' => split_sep_from fuel' (acc +:+ String c "") s'
          end
      end
  end.

Definition split_sep (s : string) : list string :=
  split_sep_from (S (String.length s)) "" s.

(** [s.substr(0, 1) === '!'] and [s.substr(1)] *)
Definition starts_with_bang (s : string) : bool :=
  match s with
  | String c _ => Ascii.eqb c "!"%char
  | EmptyString => false
  end.

Definition substr1 (s : string) : string :=
  match s with
  | String _ s' => s'
  | EmptyString => ""
  end.

(** [for (var j in v)] with [v[j]] read at each turn: the elements of an
    array, the property values of an object, nothing for [null]. *)
Definition for_in_values (v : JsVal) : list JsVal :=
  match v with
  | JArr l => l
  | JObj o => map (prop o) (keys o)
  | _ => []
  end.

(** An array seen as an object: its indices are its keys. *)
Fixpoint index_fields (i : Z) (l : list JsVal) : Obj :=
  match l with
  | [] => []
  | x :: l' => (string_of_Z i, x) :: index_fields (i + 1) l'
  end.

End Js.

(** ** Errors, and the collaborators the code calls

    The Moray client, the loggers, the models ([lib/models]) and the
    transition engine are called through callbacks [function (err, res)].
    A call is an event; what the callback receives is decided by the
    environment, from the calls made so far.  Running a function gives its
    result and the calls it made, in order. *)

Module World.
Import Js.

(** An error object: [names] are the [name] of the error and of each of its
    causes ([VError]); [statusCode], [restCode] and [message] are what an
    HTTP error carries. *)
Record Err := {
  names : list string;
  statusCode : option Z;
  restCode : string;
  message : string
}.

(** [VError.hasCauseWithName(err, name)] *)
Definition hasCauseWithName (err : Err) (n : string) : bool :=
  existsb (String.eqb n) (names err).

(** [new restify.ResourceNotFoundError(msg)] *)
Definition ResourceNotFoundError (msg : string) : Err :=
  {| names := ["ResourceNotFoundError"]; statusCode := Some 404;
     restCode := "ResourceNotFound"; message := msg |}.

(** [new restify.MissingParameterError(msg)] *)
Definition MissingParameterError (msg : string) : Err :=
  {| names := ["MissingParameterError"]; statusCode := Some 409;
     restCode := "MissingParameter"; message := msg |}.

(** A bucket configuration: [bucket.schema.index] names the indexed fields,
    [fields] are the other properties of the schema ([options], [pre], ...);
    [version] is present when the bucket declares one. *)
Record Schema := {
  index : Obj;
  fields : Obj
}.

Record Bucket := {
  desc : string;
  name : string;
  schema : Schema;
  version : option JsVal;
  name_prefixed : bool
}.

(** A model instance, as far as the endpoints use it: what its
    [serialize()] and [raw()] methods return. *)
Record Model := {
  serialize : Obj;
  raw : Obj
}.

(** The result of a transition: [trRes.transition], when present, is a
    model whose [raw()] holds the transition record. *)
Record TrRes := {
  transition : option Model
}.

Inductive LogLevel := LDebug | LInfo | LWarn | LError.

Inductive Call : Type :=
(* the Moray client *)
| GetBucket (name : string)
| CreateBucket (name : string) (schema : Schema)
| PutObject (bucket key : string) (value : Obj) (etag : string)
| Log (level : LogLevel) (msg : string)
(* models.pivtoken, models.pivtoken_history *)
| PivtokenGetPin (params : Obj)
| PivtokenGet (params : Obj)
| PivtokenList (params : Obj)
| PivtokenCreate (params : JsVal)
| PivtokenDel (params : JsVal)
| PivtokenHistoryCreate (params : JsVal)
(* models.recovery_configuration, models.fsm_transition *)
| RecoveryConfigurationGet (params : Obj)
| RecoveryConfigurationList (params : Obj)
| RecoveryConfigurationCreate (params : Obj)
| RecoveryConfigurationDel (uuid : JsVal)
| Transition (action : JsVal) (params : Obj).

(** What the callback of a call receives: an error or a result, both where
    the caller tells the cases apart. *)
Definition reply (c : Call) : Type :=
  match c with
  | GetBucket _ => Err + JsVal
  | CreateBucket _ _ => option Err * JsVal
  | PutObject _ _ _ _ => Err + Obj
  | Log _ _ => unit
  | PivtokenGetPin _ => Err + Model
  | PivtokenGet _ => Err + option Model
  | PivtokenList _ => Err + list Model
  | PivtokenCreate _ => Err + Model
  | PivtokenDel _ => option Err
  | PivtokenHistoryCreate _ => option Err
  | RecoveryConfigurationGet _ => Err + Model
  | RecoveryConfigurationList _ => Err + list Model
  | RecoveryConfigurationCreate _ => Err + Model
  | RecoveryConfigurationDel _ => option Err
  | Transition _ _ => option Err * option TrRes
  end.

(** The environment answers a call knowing the calls made before it. *)
Definition Env : Type := forall (before : list Call) (c : Call), reply c.

Definition M (A : Type) : Type := Env -> list Call -> A * list Call.

#[global] Instance M_ret : MRet M := fun A a _ t => (a, t).
#[global] Instance M_bind : MBind M :=
  fun A B k m env t => let '(a, t') := m env t in k a env t'.

Definition call (c : Call) : M (reply c) :=
  fun env t => (env t c, t ++ [c]).

(** Run from an empty history. *)
Definition run {A} (m : M A) (env : Env) : A * list Call := m env [].

End World.

(** ** lib/apis/moray.js *)

Module Moray.
Import Js World.

(** *** ldapFilter *)

(** [util.format('(%s=%s)', i, x)], [util.format('(!(%s=%s))', i, x)] *)
Definition fmt_eq (i x : string) : string := "(" +:+ i +:+ "=" +:+ x +:+ ")".
Definition fmt_not_eq (i x : string) : string := "(!(" +:+ i +:+ "=" +:+ x +:+ "))".

(** One turn of the loop over [inObj[i]]. *)
Definition filter_elem (i : string) (x : JsVal) : Result string :=
  match x with
  | JNum n => Ok (fmt_eq i (string_of_Z n))
  | JStr s =>
      if starts_with_bang s then Ok (fmt_not_eq i (substr1 s))
      else Ok (fmt_eq i s)
  | _ => Throw "TypeError: inObj[i][j].substr is not a function"
  end.

(** [bucket && !bucket.schema.index.hasOwnProperty(i)] *)
Definition not_indexed (bucket : option Bucket) (i : string) : Result bool :=
  match bucket with
  | Some b =>
      try own := call_hasOwnProperty "bucket.schema.index" (index (schema b)) i in
      Ok (negb own)
  | None => Ok false
  end.

(** Comma-separated values: turn them into a list (in place). *)
Definition split_listed (i : string) (inObj : Obj) : Obj :=
  match prop inObj i with
  | JStr s =>
      if has_comma s then set i (JArr (map JStr (split_sep s))) inObj
      else inObj
  | _ => inObj
  end.

(** What one property pushes onto the filter. *)
Definition filter_pieces (i : string) (v : JsVal) : Result (list string) :=
  match typeof v with
  | TObject =>
      try pieces := rmap (filter_elem i) (for_in_values v) in
      Ok (["(|"] ++ pieces ++ [")"])
  | TBoolean =>
      if truthy v then Ok [fmt_eq i "true"]
      else Ok [fmt_not_eq i "true"]
  | _ => Ok [fmt_eq i (to_string v)]
  end.

(** The reducer of [ldapFilter]; the state is the object, which the
    splitting of comma-separated values updates in place, and the pieces
    pushed so far. *)
Definition filter_step (bucket : option Bucket)
    (st : Obj * list string) (i : string) : Result (Obj * list string) :=
  let '(inObj, arr) := st in
  try skip := not_indexed bucket i in
  if skip then Ok (inObj, arr)
  else
    let inObj := split_listed i inObj in
    try pieces := filter_pieces i (prop inObj i) in
    Ok (inObj, arr ++ pieces).

Definition filter_fields (bucket : option Bucket) (inObj : Obj) : Result JsVal :=
  try st := rfold (filter_step bucket) (keys inObj) (inObj, []) in
  let filterBy := snd st in
  let filterBy :=
    if (1 <? length filterBy)%nat then "(&" :: filterBy ++ [")"]
    else filterBy in
  Ok (JStr (concat_strings filterBy)).

Definition ldapFilter (inObj : JsVal) (bucket : option Bucket) : Result JsVal :=
  if negb (truthy inObj) then Ok (JStr "")
  else
    match inObj with
    | JStr s => Ok inObj
    | JObj o =>
        match o with
        | [] => Ok (JStr "")            (* jsprim.isEmpty *)
        | _ =>
            (* typeof (inObj.filter === 'string') is 'boolean': a non-empty
               string, so the second conjunct always holds *)
            try own := call_hasOwnProperty "inObj" o "filter" in
            if own && true then Ok (prop o "filter")
            else filter_fields bucket o
        end
    | JArr l =>
        (* an array has no property of its own named [hasOwnProperty] or
           [filter]: its own properties are its indices and its length *)
        match l with
        | [] => Ok (JStr "")
        | _ => filter_fields bucket (index_fields 0 l)
        end
    | _ => Ok (JStr "")                 (* jsprim.isEmpty of a primitive *)
    end.

(** *** bucketName, initBucket *)

(** [BUCKET_PFX] is the module's global, set by [setTestPrefix]. *)
Definition bucketName (BUCKET_PFX : string) (name : string) : string :=
  BUCKET_PFX +:+ name.

(** [schema.options = { version: v }] *)
Definition with_version (schema : Schema) (v : JsVal) : Schema :=
  {| index := index schema;
     fields := set "options" (JObj [("version", v)]) (fields schema) |}.

(** What [callback] is called with. *)
Definition CbArgs : Type := option Err * JsVal.

(** [initBucket(moray, bucket, callback)]: the arguments of the callback and
    the bucket configuration after the call (its name is overridden when a
    prefix is set). *)
Definition initBucket (BUCKET_PFX : string) (bucket : Bucket) : M (CbArgs * Bucket) :=
  let name0 := name bucket in
  let schema0 := schema bucket in            (* jsprim.deepCopy *)
  '(name1, bucket) ←
    (if negb (String.eqb BUCKET_PFX "") && negb (name_prefixed bucket) then
       let name1 := bucketName BUCKET_PFX (name bucket) in
       _ ← call (Log LWarn "initBucket: bucket prefix set: overriding name");
       mret (name1, {| desc := desc bucket; name := name1;
                       schema := schema bucket; version := version bucket;
                       name_prefixed := true |})
     else mret (name0, bucket));
  got ← call (GetBucket name1);
  match got with
  | inl err =>
      if hasCauseWithName err "BucketNotFoundError" then
        let schema1 :=
          match version bucket with
          | Some v => with_version schema0 v
          | None => schema0
          end in
        _ ← call (Log LInfo "initBucket: creating bucket");
        '(err2, res) ← call (CreateBucket name1 schema1);
        _ ← match err2 with
            | Some _ =>
                call (Log LError ("initBucket: error creating bucket " +:+ name1))
            | None =>
                call (Log LInfo
                        ("initBucket: successfully created bucket " +:+ name1))
            end;
        mret ((err2, res), bucket)
      else
        _ ← call (Log LError ("initBucket: error getting bucket " +:+ name1));
        mret ((Some err, JUndefined), bucket)
  | inr prevBucket =>
      _ ← call (Log LDebug "bucket exists");
      mret ((None, JUndefined), bucket)
  end.

(** *** updateObj

    Objects the caller holds are cells of a heap, so that a write through
    one reference is seen through every other.  [jsprim.deepCopy] gives a
    new cell.  [putObject] sends the fields the cell has when it is called. *)

Abbreviation Heap := (gmap nat Obj).

Definition cell (h : Heap) (l : nat) : Obj := default [] (h !! l).

Definition deepCopy (l : nat) (h : Heap) : nat * Heap :=
  let l' := fresh (dom h) in
  (l', <[l' := cell h l]> h).

Record UpdateOpts := {
  u_bucket : Bucket;
  u_key : string;
  u_original : nat;
  u_etag : string;
  u_remove : option bool;
  u_val : nat
}.

(** [for (var k in opts.val)]: one turn, on the cell [value]. *)
Definition update_key (opts : UpdateOpts) (value : nat) (h : Heap) (k : string) : Heap :=
  if default false (u_remove opts) then
    <[value := del k (cell h value)]> h
  else
    <[value := set k (prop (cell h (u_val opts)) k) (cell h value)]> h.

(** The callback receives [pErr], or [{ value: value }]: the cell of the
    updated copy. *)
Definition updateObj (opts : UpdateOpts) (h : Heap) : M ((Err + nat) * Heap) :=
  let '(value, h) := deepCopy (u_original opts) h in
  let h := fold_left (update_key opts value) (keys (cell h (u_val opts))) h in
  put ← call (PutObject (name (u_bucket opts)) (u_key opts) (cell h value)
                (u_etag opts));
  match put with
  | inl pErr => mret (inl pErr, h)
  | inr info =>
      let h := <[value := set "etag" (prop info "etag") (cell h value)]> h in
      mret (inr value, h)
  end.

(** *** arrayToVal, arrayify, valToArray *)

Definition arrayToVal (arr : list JsVal) : string :=
  "," +:+ join arr +:+ ",".

Definition arrayify (obj : JsVal) : Result JsVal :=
  if is_object obj then Ok obj
  else
    match obj with
    | JStr s =>
        if String.eqb s "" then Ok (JArr [])
        else Ok (JArr (map JStr (split_comma s)))
    | _ => Throw "TypeError: obj.split is not a function"
    end.

(** [valToArray] updates [params] in place; the result is [params] after
    the call. *)
Definition valToArray (params : Obj) (key : string) : Result Obj :=
  try own := call_hasOwnProperty "params" params key in
  if negb own then Ok params
  else if is_object (prop params key) then Ok params
  else
    match prop params key with
    | JStr s =>
        if String.eqb s ",," then Ok (del key params)
        else
          try a := arrayify (JStr (strip_trailing_comma (strip_leading_comma s))) in
          Ok (set key a params)
    | _ => Throw "TypeError: params[key].replace is not a function"
    end.

End Moray.

(** ** Requests, responses and handler chains (restify) *)

Module Http.
Import Js World.

(** The request as the handlers see it: the name of the route being served,
    the parameters, the headers, and what the pre-loading handlers attach. *)
Record Req := {
  route : string;
  params : Obj;
  headers : Obj;
  pivtoken : option Obj;
  rawToken : option Obj;
  recoveryConfig : option Obj
}.

(** The response under construction: [res.header] and [res.send]. *)
Record Res := {
  res_headers : list (string * string);
  sent : option (Z * JsVal)
}.

Definition empty_res : Res := {| res_headers := []; sent := None |}.

Definition res_header (k v : string) (res : Res) : Res :=
  {| res_headers := res_headers res ++ [(k, v)]; sent := sent res |}.

Definition res_send (code : Z) (body : JsVal) (res : Res) : Res :=
  {| res_headers := res_headers res; sent := Some (code, body) |}.

(** How a handler hands over: [next()], [next(err)], or an exception. *)
Inductive Next :=
| Continue
| Fail (err : Err)
| Threw (what : string).

Definition Handler : Type := Req -> Res -> M (Req * Res * Next).

Fixpoint run_chain (hs : list Handler) (req : Req) (res : Res) : M (Req * Res * Next) :=
  match hs with
  | [] => mret (req, res, Continue)
  | h :: hs' =>
      '(req, res, n) ← h req res;
      match n with
      | Continue => run_chain hs' req res
      | _ => mret (req, res, n)
      end
  end.

(** What the client receives. *)
Record Response := {
  status : Z;
  body : JsVal;
  resp_headers : list (string * string)
}.

Definition error_body (err : Err) : JsVal :=
  JObj [("code", JStr (restCode err)); ("message", JStr (message err))].

Definition response (out : Req * Res * Next) : option Response :=
  let '(_, res, n) := out in
  match sent res with
  | Some (code, b) =>
      Some {| status := code; body := b; resp_headers := res_headers res |}
  | None =>
      match n with
      | Fail err =>
          Some {| status := default 500 (statusCode err);
                  body := error_body err; resp_headers := res_headers res |}
      | Threw what =>
          Some {| status := 500;
                  body := JObj [("code", JStr "InternalError");
                                ("message", JStr what)];
                  resp_headers := res_headers res |}
      | Continue => None
      end
  end.

Record Route := {
  method : string;
  path : string;
  route_name : string;
  chain : list Handler
}.

End Http.

(** ** lib/auth *)

Module Auth.
Import Js World Http.

(** The two checks of the authentication layer, on a stored key or secret
    and the headers of the request that claims to hold its counterpart; and
    whether the layer itself refuses a request that names no existing token
    or leaves that to the endpoint. *)
Class Verifier := {
  verify_signature : JsVal -> Obj -> bool;
  verify_hmac : JsVal -> Obj -> bool;
  absent_fails : bool
}.

Inductive Scheme := SignatureScheme | HmacScheme.

(** Modelled from the spec: which scheme a route uses; [lib/auth.js] is
    missing.  The two schemes are "selected by route", and the recovery
    scheme is "used exclusively for the recover action". *)
Definition scheme_of_route (name : string) : Scheme :=
  if String.eqb name "recoverytoken" then HmacScheme else SignatureScheme.

(** Modelled from the spec: the check [mod_auth.signatureAuth] makes, on
    the request's headers; [lib/auth.js] is missing.  The signature is
    verified against the token's stored "9E" public key, or, on the recover
    route, the HMAC against its stored [recovery_token]. *)
Definition verified `{Verifier} (name : string) (token : Obj) (hdrs : Obj) : bool :=
  match scheme_of_route name with
  | SignatureScheme =>
      match prop token "pubkeys" with
      | JObj pubkeys => verify_signature (prop pubkeys "9e") hdrs
      | _ => false
      end
  | HmacScheme => verify_hmac (prop token "recovery_token") hdrs
  end.

(** Modelled from the spec: [mod_auth.signatureAuth], the handler every
    authenticated pivtoken route runs after [preloadPivtoken];
    [lib/auth.js] is missing.  With no token pre-loaded, creation goes on
    ("unauthenticated if GUID unseen"); on the other routes the "absence of
    the resource being authenticated against" is an authentication failure
    "indistinguishable from resource not found", raised here or left to the
    endpoint, which answers "not found" itself ([absent_fails]).  Otherwise
    the request is checked ([verified]); a failed verification is "rendered
    identically to NotFound". *)
Definition signatureAuth `{Verifier} : Handler := fun req res =>
  match rawToken req with
  | None =>
      if absent_fails && negb (String.eqb (route req) "createtoken") then
        mret (req, res, Fail (ResourceNotFoundError "pivtoken not found"))
      else mret (req, res, Continue)
  | Some token =>
      if verified (route req) token (headers req) then mret (req, res, Continue)
      else mret (req, res, Fail (ResourceNotFoundError "pivtoken not found"))
  end.

End Auth.

(** ** lib/endpoints/pivtokens.js *)

Module Pivtokens.
Import Js World Http Auth.

(** [req.params.guid || req.params.token.guid] *)
Definition preload_guid (params : Obj) : Result JsVal :=
  if truthy (prop params "guid") then Ok (prop params "guid")
  else
    match prop params "token" with
    | JUndefined | JNull =>
        Throw "TypeError: Cannot read property 'guid' of undefined"
    | JObj token => Ok (prop token "guid")
    | _ => Ok JUndefined
    end.

Definition preloadPivtoken : Handler := fun req res =>
  match preload_guid (params req) with
  | Throw what => mret (req, res, Threw what)
  | Ok guid =>
      got ← call (PivtokenGetPin [("guid", guid)]);
      match got with
      | inl err =>
          if decide (statusCode err = Some 404) then mret (req, res, Continue)
          else mret (req, res, Fail err)
      | inr token =>
          mret ({| route := route req; params := params req;
                   headers := headers req;
                   pivtoken := Some (serialize token);
                   rawToken := Some (raw token);
                   recoveryConfig := recoveryConfig req |}, res, Continue)
      end
  end.

(** [archiveAndDeletePivtoken(moray, log, token, cb)]: what [cb] is called
    with, unless an assertion on [token] fails first. *)
Definition archiveAndDeletePivtoken (token : option Obj) : M (Result (option Err)) :=
  match token with
  | None => mret (Throw "AssertionError: token (object) is required")
  | Some token =>
      match prop token "guid" with
      | JStr _ =>
          historyErr ← call (PivtokenHistoryCreate (JObj token));
          match historyErr with
          | Some e => mret (Ok (Some e))
          | None =>
              err ← call (PivtokenDel (JObj token));
              match err with
              | Some e => mret (Ok (Some e))
              | None => mret (Ok None)
              end
          end
      | _ => mret (Throw "AssertionError: token.guid (string) is required")
      end
  end.

Definition listPivtokens : Handler := fun req res =>
  got ← call (PivtokenList (params req));
  match got with
  | inl err => mret (req, res, Fail err)
  | inr tokens =>
      mret (req,
            res_send 200 (JArr (map (fun t => JObj (serialize t)) tokens)) res,
            Continue)
  end.

Definition getPivtoken : Handler := fun req res =>
  got ← call (PivtokenGet (params req));
  match got with
  | inl err => mret (req, res, Fail err)
  | inr None =>
      mret (req, res, Fail (ResourceNotFoundError "pivtoken not found"))
  | inr (Some token) =>
      mret (req, res_send 200 (JObj (serialize token)) res, Continue)
  end.

Definition getPivtokenPin : Handler := fun req res =>
  match pivtoken req with
  | None => mret (req, res, Fail (ResourceNotFoundError "pivtoken not found"))
  | Some tk => mret (req, res_send 200 (JObj tk) res, Continue)
  end.

Definition createPivtoken : Handler := fun req res =>
  match pivtoken req with
  | Some tk => mret (req, res_send 200 (JObj tk) res, Continue)
  | None =>
      got ← call (PivtokenCreate (JObj (params req)));
      match got with
      | inl err => mret (req, res, Fail err)
      | inr token =>
          mret (req, res_send 201 (JObj (serialize token)) res, Continue)
      end
  end.

Definition deletePivtoken : Handler := fun req res =>
  match pivtoken req with
  | None => mret (req, res, Fail (ResourceNotFoundError "pivtoken not found"))
  | Some _ =>
      r ← archiveAndDeletePivtoken (rawToken req);
      match r with
      | Throw what => mret (req, res, Threw what)
      | Ok (Some err) => mret (req, res, Fail err)
      | Ok None => mret (req, res_send 204 JUndefined res, Continue)
      end
  end.

Definition recoveryPivtoken : Handler := fun req res =>
  match pivtoken req with
  | None => mret (req, res, Fail (ResourceNotFoundError "pivtoken not found"))
  | Some _ =>
      r ← archiveAndDeletePivtoken (rawToken req);
      match r with
      | Throw what => mret (req, res, Threw what)
      | Ok (Some err) => mret (req, res, Fail err)
      | Ok None =>
          got ← call (PivtokenCreate (prop (params req) "token"));
          match got with
          | inl createErr => mret (req, res, Fail createErr)
          | inr token =>
              mret (req, res_send 201 (JObj (serialize token)) res, Continue)
          end
      end
  end.

Definition registerEndpoints `{Verifier} (before : list Handler) : list Route :=
  [ {| method := "GET"; path := "/pivtokens"; route_name := "listtokens";
       chain := before ++ [listPivtokens] |};
    {| method := "POST"; path := "/pivtokens"; route_name := "createtoken";
       chain := before ++ [preloadPivtoken; signatureAuth; createPivtoken] |};
    {| method := "GET"; path := "/pivtokens/:guid"; route_name := "gettoken";
       chain := before ++ [getPivtoken] |};
    {| method := "DELETE"; path := "/pivtokens/:guid"; route_name := "deltoken";
       chain := before ++ [preloadPivtoken; signatureAuth; deletePivtoken] |};
    {| method := "GET"; path := "/pivtokens/:guid/pin";
       route_name := "gettokenpin";
       chain := before ++ [preloadPivtoken; signatureAuth; getPivtokenPin] |};
    {| method := "POST"; path := "/pivtokens/:guid/recover";
       route_name := "recoverytoken";
       chain := before ++ [preloadPivtoken; signatureAuth; recoveryPivtoken] |} ].

(** The handlers of the route called [name]. *)
Definition route_chain `{Verifier} (before : list Handler) (name : string)
  : list Handler :=
  match List.find (fun r => String.eqb (route_name r) name)
          (registerEndpoints before) with
  | Some r => chain r
  | None => []
  end.

(** Serving [req] on the route it names. *)
Definition serve `{Verifier} (req : Req) : M (Req * Res * Next) :=
  run_chain (route_chain [] (route req)) req empty_res.

End Pivtokens.

(** ** lib/endpoints/recovery-configurations.js *)

Module RecoveryConfigurations.
Import Js World Http.

Definition preloadRecoveryConfiguration : Handler := fun req res =>
  if negb (truthy (prop (params req) "uuid")) then mret (req, res, Continue)
  else
    got ← call (RecoveryConfigurationGet [("uuid", prop (params req) "uuid")]);
    match got with
    | inl err =>
        if decide (statusCode err = Some 404) then mret (req, res, Continue)
        else mret (req, res, Fail err)
    | inr recoveryConfig =>
        mret ({| route := route req; params := params req;
                 headers := headers req; pivtoken := pivtoken req;
                 rawToken := rawToken req;
                 recoveryConfig := Some (serialize recoveryConfig) |},
              res, Continue)
    end.

Definition listRecoveryConfigurations : Handler := fun req res =>
  got ← call (RecoveryConfigurationList (params req));
  match got with
  | inl err => mret (req, res, Fail err)
  | inr recoveryConfigs =>
      mret (req,
            res_send 200
              (JArr (map (fun c => JObj (serialize c)) recoveryConfigs)) res,
            Continue)
  end.

Definition createRecoveryConfiguration : Handler := fun req res =>
  got ← call (RecoveryConfigurationCreate
                [("template", prop (params req) "template")]);
  match got with
  | inl err => mret (req, res, Fail err)
  | inr recoveryConfig =>
      mret (req, res_send 201 (JObj (serialize recoveryConfig)) res, Continue)
  end.

Definition getRecoveryConfiguration : Handler := fun req res =>
  match recoveryConfig req with
  | None =>
      mret (req, res,
            Fail (ResourceNotFoundError "recovery configuration not found"))
  | Some cfg => mret (req, res_send 200 (JObj cfg) res, Continue)
  end.

(** [util.format('/recovery-configurations/%s?action=watch&transition=%s',
    uuid, name)] *)
Definition watch_location (uuid name : JsVal) : string :=
  "/recovery-configurations/" +:+ to_string uuid
    +:+ "?action=watch&transition=" +:+ to_string name.

(** [trRes.transition && trRes.transition.raw().name] *)
Definition transition_name (trRes : TrRes) : JsVal :=
  match transition trRes with
  | Some t => prop (raw t) "name"
  | None => JUndefined
  end.

Definition set_if (c : JsVal) (k : string) (v : JsVal) (o : Obj) : Obj :=
  if truthy c then set k v o else o.

Definition updateRecoveryConfiguration : Handler := fun req res =>
  match recoveryConfig req with
  | None =>
      mret (req, res,
            Fail (ResourceNotFoundError "recovery configuration not found"))
  | Some _ =>
      let p := params req in
      if negb (truthy (prop p "action")) then
        mret (req, res,
              Fail (MissingParameterError
                      "A value for the 'action' parameter must be provided"))
      else
        let trParams := [("uuid", prop p "uuid")] in
        let trParams := set_if (prop p "force") "force" (JBool true) trParams in
        let trParams :=
          set_if (prop p "pivtoken") "pivtoken" (prop p "pivtoken") trParams in
        let p' := set_if (prop p "cn_uuid") "targets" (JArr [prop p "cn_uuid"]) p in
        let trParams :=
          set_if (prop p "concurrency") "concurrency" (prop p "concurrency")
            trParams in
        let req := {| route := route req; params := p'; headers := headers req;
                      pivtoken := pivtoken req; rawToken := rawToken req;
                      recoveryConfig := recoveryConfig req |} in
        '(trErr, trRes) ← call (Transition (prop p "action") trParams);
        match trErr, trRes with
        | Some e, None => mret (req, res, Fail e)
        | None, None =>
            mret (req, res,
                  Threw "TypeError: Cannot read property 'transition' of undefined")
        | _, Some r =>
            let res :=
              if truthy (transition_name r) then
                res_header "Location"
                  (watch_location (prop p' "uuid") (transition_name r)) res
              else res in
            mret (req,
                  res_send (match trErr with Some _ => 200 | None => 204 end)
                    JUndefined res,
                  Continue)
        end
  end.

Definition deleteRecoveryConfiguration : Handler := fun req res =>
  match recoveryConfig req with
  | None =>
      mret (req, res,
            Fail (ResourceNotFoundError "recovery configuration not found"))
  | Some _ =>
      err ← call (RecoveryConfigurationDel (prop (params req) "uuid"));
      match err with
      | Some e => mret (req, res, Fail e)
      | None => mret (req, res_send 204 JUndefined res, Continue)
      end
  end.

Definition watchRecoveryConfiguration : Handler := fun req res =>
  match recoveryConfig req with
  | None =>
      mret (req, res,
            Fail (ResourceNotFoundError "recovery configuration not found"))
  | Some _ => mret (req, res, Continue)
  end.

Definition registerEndpoints (before : list Handler) : list Route :=
  [ {| method := "GET"; path := "/recovery-configurations";
       route_name := "listrecoveryconfigs";
       chain := before ++ [listRecoveryConfigurations] |};
    {| method := "POST"; path := "/recovery-configurations";
       route_name := "createrecoveryconfiguration";
       chain := before ++ [preloadRecoveryConfiguration;
                           createRecoveryConfiguration] |};
    {| method := "GET"; path := "/recovery-configurations/:uuid";
       route_name := "getrecoveryconfiguration";
       chain := before ++ [preloadRecoveryConfiguration;
                           getRecoveryConfiguration] |};
    {| method := "DELETE"; path := "/recovery-configurations/:uuid";
       route_name := "delrecoveryconfiguration";
       chain := before ++ [preloadRecoveryConfiguration;
                           deleteRecoveryConfiguration] |};
    {| method := "PUT"; path := "/recovery-configurations/:uuid";
       route_name := "putrecoveryconfiguration";
       chain := before ++ [preloadRecoveryConfiguration;
                           updateRecoveryConfiguration] |};
    {| method := "POST"; path := "/recovery-configurations/:uuid/watch";
       route_name := "watchrecoveryconfiguration";
       chain := before ++ [preloadRecoveryConfiguration;
                           watchRecoveryConfiguration] |} ].

(** The handlers of [PUT /recovery-configurations/:uuid]. *)
Definition put_chain (before : list Handler) : list Handler :=
  match List.find (fun r => String.eqb (method r) "PUT")
          (registerEndpoints before) with
  | Some r => chain r
  | None => []
  end.

End RecoveryConfigurations.

(** ** The vocabulary of the properties *)

Module Views.
Import Js World Moray Http Auth Pivtokens RecoveryConfigurations.

(** The encoding of [arr] round-trips at [key] of [params]: decoding leaves
    the array [arr] in that field. *)
Definition roundtrips (arr : list JsVal) (params : Obj) (key : string) : Prop :=
  exists params',
    valToArray (set key (JStr (arrayToVal arr)) params) key = Ok params'
    /\ get key params' = Some (JArr arr).

(** The indexed fields of [bucket]. *)
Definition indexed (b : Bucket) (k : string) : bool :=
  hasOwnProperty (index (schema b)) k.

(** [o] without its properties that are not indexed in [b]. *)
Definition indexed_only (b : Bucket) (o : Obj) : Obj :=
  List.filter (fun kv => indexed b (fst kv)) o.

Definition on_object {A} (f : Obj -> Obj) (r : Result (Obj * A)) : Result (Obj * A) :=
  match r with
  | Ok (o, a) => Ok (f o, a)
  | Throw e => Throw e
  end.

(** The tokens archived, the tokens deleted, the tokens created and the
    buckets created by a sequence of calls. *)
Definition archived (t : list Call) : list JsVal :=
  omap (fun c => match c with PivtokenHistoryCreate p => Some p | _ => None end) t.

Definition deleted (t : list Call) : list JsVal :=
  omap (fun c => match c with PivtokenDel p => Some p | _ => None end) t.

Definition created (t : list Call) : list JsVal :=
  omap (fun c => match c with PivtokenCreate p => Some p | _ => None end) t.

Definition buckets_created (t : list Call) : list (string * Schema) :=
  omap (fun c => match c with CreateBucket n s => Some (n, s) | _ => None end) t.

Definition objects_put (t : list Call) : list (string * string * Obj * string) :=
  omap (fun c => match c with
                 | PutObject b k v e => Some (b, k, v, e)
                 | _ => None
                 end) t.

(** [req] once [preloadPivtoken] has found [token]. *)
Definition preloaded (req : Req) (token : Model) : Req :=
  {| route := route req; params := params req; headers := headers req;
     pivtoken := Some (serialize token); rawToken := Some (raw token);
     recoveryConfig := recoveryConfig req |}.

Definition not_found : Response :=
  {| status := 404;
     body := error_body (ResourceNotFoundError "pivtoken not found");
     resp_headers := [] |}.

Definition request (name : string) (p hdrs : Obj) : Req :=
  {| route := name; params := p; headers := hdrs; pivtoken := None;
     rawToken := None; recoveryConfig := None |}.

Definition put_request (p : Obj) : Req :=
  {| route := "putrecoveryconfiguration"; params := p; headers := [];
     pivtoken := None; rawToken := None; recoveryConfig := None |}.

(** Whether [initBucket] overrides the bucket's name with the prefixed one. *)
Definition prefixing (BUCKET_PFX : string) (bucket : Bucket) : bool :=
  negb (String.eqb BUCKET_PFX "") && negb (name_prefixed bucket).

Definition effective_name (BUCKET_PFX : string) (bucket : Bucket) : string :=
  if prefixing BUCKET_PFX bucket then bucketName BUCKET_PFX (name bucket)
  else name bucket.

Definition effective_bucket (BUCKET_PFX : string) (bucket : Bucket) : Bucket :=
  if prefixing BUCKET_PFX bucket then
    {| desc := desc bucket; name := bucketName BUCKET_PFX (name bucket);
       schema := schema bucket; version := version bucket;
       name_prefixed := true |}
  else bucket.

Definition prefix_warning (BUCKET_PFX : string) (bucket : Bucket) : list Call :=
  if prefixing BUCKET_PFX bucket then
    [Log LWarn "initBucket: bucket prefix set: overriding name"]
  else [].

(** The schema handed to [createBucket]. *)
Definition creation_schema (bucket : Bucket) : Schema :=
  match version bucket with
  | Some v => with_version (schema bucket) v
  | None => schema bucket
  end.

(** The parameters handed to the transition. *)
Definition transition_params (p : Obj) : Obj :=
  set_if (prop p "concurrency") "concurrency" (prop p "concurrency")
    (set_if (prop p "pivtoken") "pivtoken" (prop p "pivtoken")
       (set_if (prop p "force") "force" (JBool true) [("uuid", prop p "uuid")])).

(** One turn of the loop of [updateObj] on the fields of the copy. *)
Definition merge_key (v : Obj) (remove : bool) (w : Obj) (k : string) : Obj :=
  if remove then del k w else set k (prop v k) w.

(** The fields of the copy after the loop: [o] updated from [v]. *)
Definition merged (o v : Obj) (remove : bool) : Obj :=
  fold_left (merge_key v remove) (keys v) o.

(** The claim as stated: the value put into the store has the new tag in its
    [etag] field. *)
Definition written_has_new_etag (env : Env) (opts : UpdateOpts) (h : Heap) : Prop :=
  forall b k written e info,
    snd (run (updateObj opts h) env) = [PutObject b k written e] ->
    env [] (PutObject b k written e) = inr info ->
    get "etag" written = Some (prop info "etag").

End Views.

(** ** Sample data: tokens, requests and environments *)

Module Samples.
Import Js World Moray Http Auth Pivtokens RecoveryConfigurations Views.

Definition InternalError (msg : string) : Err :=
  {| names := ["InternalError"]; statusCode := Some 500;
     restCode := "InternalError"; message := msg |}.

(** An environment in which nothing exists and every write succeeds. *)
Definition empty_store : Env := fun _ c =>
  match c return reply c with
  | GetBucket _ =>
      inl {| names := ["BucketNotFoundError"]; statusCode := None;
             restCode := ""; message := "bucket not found" |}
  | CreateBucket _ _ => (None, JUndefined)
  | PutObject _ _ _ _ => inr [("etag", JStr "00000001")]
  | Log _ _ => tt
  | PivtokenGetPin _ => inl (ResourceNotFoundError "pivtoken not found")
  | PivtokenGet _ => inr None
  | PivtokenList _ => inr []
  | PivtokenCreate p =>
      inr {| serialize := match p with JObj o => del "pin" o | _ => [] end;
             raw := match p with JObj o => o | _ => [] end |}
  | PivtokenDel _ => None
  | PivtokenHistoryCreate _ => None
  | RecoveryConfigurationGet _ =>
      inl (ResourceNotFoundError "recovery configuration not found")
  | RecoveryConfigurationList _ => inr []
  | RecoveryConfigurationCreate p => inr {| serialize := p; raw := p |}
  | RecoveryConfigurationDel _ => None
  | Transition _ _ => (None, Some {| transition := None |})
  end.

(** The history bucket refuses writes. *)
Definition history_down : Env := fun before c =>
  match c return reply c with
  | PivtokenHistoryCreate _ => Some (InternalError "no active connections")
  | c' => empty_store before c'
  end.

Definition token1 : Obj :=
  [("guid", JStr "97496DD1C8F053DE7450CD854D9C95B4"); ("pin", JStr "123456");
   ("recovery_token", JStr "cefb9c2001b535b697d5a13ba6855098");
   ("pubkeys", JObj [("9e", JStr "ecdsa-sha2-nistp256 AAAA")])].

Definition req1 (name : string) : Req :=
  {| route := name; params := [("guid", JStr "97496DD1C8F053DE7450CD854D9C95B4")];
     headers := []; pivtoken := Some (del "pin" token1);
     rawToken := Some token1; recoveryConfig := None |}.

(** An environment that holds [token1]. *)
Definition store1 : Env := fun before c =>
  match c return reply c with
  | PivtokenGetPin _ => inr {| serialize := token1; raw := token1 |}
  | c' => empty_store before c'
  end.

(** A verifier for the examples: the request must show the stored value
    itself. *)
Definition shows (k : string) (stored : JsVal) (hdrs : Obj) : bool :=
  match stored, prop hdrs k with
  | JStr a, JStr b => String.eqb a b
  | _, _ => false
  end.

Definition toy_verifier : Verifier :=
  {| verify_signature := shows "signature"; verify_hmac := shows "hmac";
     absent_fails := true |}.

(** A replacement token, and a store in which [token1] exists. *)
Definition token2 : Obj :=
  [("guid", JStr "75CA077A14C5E45037D7A0740D5602A5"); ("pin", JStr "654321");
   ("pubkeys", JObj [("9e", JStr "ecdsa-sha2-nistp256 BBBB")])].

Definition recover_params : Obj :=
  [("guid", JStr "97496DD1C8F053DE7450CD854D9C95B4"); ("token", JObj token2)].

Definition pivtokens_bucket : Bucket :=
  {| desc := "pivtoken"; name := "kbmapi_pivtokens";
     schema := {| index := [("guid", JObj [("type", JStr "string")]);
                            ("cn_uuid", JObj [("type", JStr "string")])];
                  fields := [] |};
     version := Some (JNum 1); name_prefixed := false |}.

Definition tokens_bucket : Bucket :=
  {| desc := "pivtoken"; name := "kbmapi_pivtokens";
     schema := {| index := [("guid", JObj [("type", JStr "string")])];
                  fields := [("options", JObj [("trackModification", JBool true)])] |};
     version := Some (JNum 2); name_prefixed := false |}.

(** A bucket with an indexed field named [hasOwnProperty]. *)
Definition odd_bucket : Bucket :=
  {| desc := "odd"; name := "kbmapi_odd";
     schema := {| index := [("hasOwnProperty", JObj [("type", JStr "string")])];
                  fields := [] |};
     version := None; name_prefixed := false |}.

(** A Moray in which every bucket exists. *)
Definition all_buckets : Env := fun before c =>
  match c return reply c with
  | GetBucket n => inr (JObj [("name", JStr n)])
  | c' => empty_store before c'
  end.

Definition config1 : Model :=
  {| serialize := [("uuid", JStr "f85b894e-f9f5-4e63-a0be-0e5b0c1c5b1f");
                   ("template", JStr "AAAA")];
     raw := [("uuid", JStr "f85b894e-f9f5-4e63-a0be-0e5b0c1c5b1f");
             ("template", JStr "AAAA"); ("staged", JStr "2019-10-01")] |}.

Definition put_params : Obj :=
  [("uuid", JStr "f85b894e-f9f5-4e63-a0be-0e5b0c1c5b1f");
   ("action", JStr "activate"); ("concurrency", JNum 2)].

Definition transition1 : TrRes :=
  {| transition :=
       Some {| serialize := [("name", JStr "activate")];
               raw := [("name", JStr "activate"); ("targets", JArr [])] |} |}.

(** The configuration exists and the transition starts. *)
Definition transition_starts : Env := fun before c =>
  match c return reply c with
  | RecoveryConfigurationGet _ => inr config1
  | Transition _ _ => (None, Some transition1)
  | c' => empty_store before c'
  end.

(** The transition reports a failure together with its record. *)
Definition transition_fails : Env := fun before c =>
  match c return reply c with
  | RecoveryConfigurationGet _ => inr config1
  | Transition _ _ =>
      (Some (InternalError "target timed out"), Some transition1)
  | c' => empty_store before c'
  end.

Definition heap1 : Heap :=
  <[1%nat := [("cn_uuid", JStr "15966912-8fad-41cd-bd82-abe6468354b5")]]>
    (<[0%nat := [("guid", JStr "97496DD1C8F053DE7450CD854D9C95B4");
                 ("etag", JStr "0000000A")]]> ∅).

Definition opts1 : UpdateOpts :=
  {| u_bucket := tokens_bucket;
     u_key := "97496DD1C8F053DE7450CD854D9C95B4";
     u_original := 0%nat; u_etag := "0000000A"; u_remove := None;
     u_val := 1%nat |}.

End Samples.

(** ** lib/apis/moray.js: objects

    [delObj], [getObj], [putObj] and [listObjs] call the Moray client's
    [delObject], [getObject], [putObject] and [findObjects]; the client
    answers through callbacks and, for [findObjects], through the events of
    a request: the records found, then [end], or [error]. *)

Module MorayObjects.
Import Js World Moray.

(** [../util/constants]: the defaults of [listObjs]. *)
Record Constants := {
  DEFAULT_LIMIT : Z;
  DEFAULT_OFFSET : Z
}.

(** A record emitted by [findObjects]: [rec.key], [rec.value], [rec._etag]. *)
Record Rec := {
  rec_key : string;
  rec_value : Obj;
  rec_etag : JsVal
}.

Inductive Op : Type :=
| DelObject (bucket key : string) (morayOpts : Obj)
| GetObject (bucket key : string)
| PutObjectAt (bucket key : string) (value : Obj) (etag : JsVal)
| FindObjects (bucket : string) (filter : JsVal) (listOpts : Obj)
(* [opts.log.debug(fields, msg)]: the message; the object logged with it is
   not recorded *)
| Debug (msg : string).

(** What the client gives back: for [findObjects], the records emitted and
    the error that ended the request, if any. *)
Definition answer (o : Op) : Type :=
  match o with
  | DelObject _ _ _ => option Err
  | GetObject _ _ => Err + JsVal
  | PutObjectAt _ _ _ _ => Err + Obj
  | FindObjects _ _ _ => list Rec * option Err
  | Debug _ => unit
  end.

Definition Client : Type := forall (before : list Op) (o : Op), answer o.

Definition S (A : Type) : Type := Client -> list Op -> A * list Op.

#[global] Instance S_ret : MRet S := fun A a _ t => (a, t).
#[global] Instance S_bind : MBind S :=
  fun A B k m client t => let '(a, t') := m client t in k a client t'.

Definition op (o : Op) : S (answer o) :=
  fun client t => (client t o, t ++ [o]).

Definition exec {A} (m : S A) (client : Client) : A * list Op := m client [].

(** [new restify.ResourceNotFoundError(err, '%s not found', desc)]: the
    cause stays in the chain of the new error. *)
Definition ResourceNotFoundCaused (cause : Err) (desc : string) : Err :=
  {| names := "ResourceNotFoundError" :: names cause;
     statusCode := Some 404; restCode := "ResourceNotFound";
     message := desc +:+ " not found" |}.

(** *** delObj *)

Record DelOpts := {
  d_bucket : Bucket;
  d_key : string;
  d_etag : option string
}.

(** [if (opts.etag) morayOpts.etag = opts.etag] *)
Definition del_morayOpts (opts : DelOpts) : Obj :=
  match d_etag opts with
  | Some e => if truthy (JStr e) then [("etag", JStr e)] else []
  | None => []
  end.

Definition delObj (opts : DelOpts) : S (option Err) :=
  err ← op (DelObject (name (d_bucket opts)) (d_key opts) (del_morayOpts opts));
  match err with
  | Some e =>
      if hasCauseWithName e "ObjectNotFoundError" then
        mret (Some (ResourceNotFoundCaused e (desc (d_bucket opts))))
      else mret (Some e)
  | None => mret None
  end.

(** *** getObj *)


(** *** putObj *)

(** A model instance as [putObj] uses it: what [obj.key()] and [obj.raw()]
    return, and its [etag] property. *)
Record Instance := {
  i_key : string;
  i_raw : Obj;
  i_etag : JsVal
}.

(** The callback receives the error, or [obj] with its [etag] updated. *)
Definition putObj (bucket : Bucket) (obj : Instance) : S (Err + Instance) :=
  put ← op (PutObjectAt (name bucket) (i_key obj) (i_raw obj) (i_etag obj));
  match put with
  | inl err => mret (inl err)
  | inr res =>
      mret (inr {| i_key := i_key obj; i_raw := i_raw obj;
                   i_etag := prop res "etag" |})
  end.

(** *** listObjs *)

Record ListOpts (A : Type) := {
  l_bucket : Bucket;
  l_filter : JsVal;
  l_defaultFilter : JsVal;
  l_limit : option Z;
  l_offset : option Z;
  l_sort : JsVal;
  l_noBucketCache : JsVal;
  l_model : option (Obj -> A);
  l_extra : option Obj
}.
Arguments l_bucket {A}.
Arguments l_filter {A}.
Arguments l_defaultFilter {A}.
Arguments l_limit {A}.
Arguments l_offset {A}.
Arguments l_sort {A}.
Arguments l_noBucketCache {A}.
Arguments l_model {A}.
Arguments l_extra {A}.

(** [if (n) ... else default] on an optional number *)
Definition number_or (n : option Z) (d : Z) : Z :=
  match n with
  | Some z => if truthy (JNum z) then z else d
  | None => d
  end.

Definition listOpts_of {A} (c : Constants) (opts : ListOpts A) : Obj :=
  let listOpts := [] in
  let listOpts :=
    if truthy (l_sort opts) then set "sort" (l_sort opts) listOpts
    else listOpts in
  let listOpts :=
    set "limit" (JNum (number_or (l_limit opts) (DEFAULT_LIMIT c))) listOpts in
  let listOpts :=
    set "offset" (JNum (number_or (l_offset opts) (DEFAULT_OFFSET c))) listOpts in
  if truthy (l_noBucketCache opts) then
    set "noBucketCache" (JBool true) listOpts
  else listOpts.

(** [ldapFilter(opts.filter, opts.bucket) || opts.defaultFilter] *)
Definition list_filter {A} (opts : ListOpts A) : Result JsVal :=
  try f := ldapFilter (l_filter opts) (Some (l_bucket opts)) in
  Ok (if truthy f then f else l_defaultFilter opts).

(** [rec.value.etag = rec._etag] *)
Definition with_etag (rec : Rec) : Rec :=
  {| rec_key := rec_key rec;
     rec_value := set "etag" (rec_etag rec) (rec_value rec);
     rec_etag := rec_etag rec |}.

(** [Object.keys(opts.extra).forEach(function (k) { value[k] = extra[k] })] *)
Definition with_extra (extra : Obj) (value : Obj) : Obj :=
  fold_left (fun v k => set k (prop extra k) v) (keys extra) value.

(** What the [record] listener pushes onto [results]. *)
Definition list_item {A} (opts : ListOpts A) (rec : Rec) : A + Rec :=
  let rec := with_etag rec in
  match l_model opts with
  | Some model =>
      let value :=
        match l_extra opts with
        | Some extra => with_extra extra (rec_value rec)
        | None => rec_value rec
        end in
      inl (model value)
  | None => inr rec
  end.

Fixpoint on_records {A} (opts : ListOpts A) (recs : list Rec)
    (results : list (A + Rec)) : S (list (A + Rec)) :=
  match recs with
  | [] => mret results
  | rec :: recs' =>
      _ ← op (Debug "record from moray");
      on_records opts recs' (results ++ [list_item opts rec])
  end.

(** [util.format('"%s"', s)] *)
Definition quoted (s : string) : string :=
  String (ascii_of_nat 34) (s +:+ String (ascii_of_nat 34) "").

(** The callback receives the error that ended the request, or the
    results; building the filter may throw before anything is asked. *)
Definition listObjs {A} (c : Constants) (opts : ListOpts A)
  : S (Result (Err + list (A + Rec))) :=
  let listOpts := listOpts_of c opts in
  match list_filter opts with
  | Throw what => mret (Throw what)
  | Ok filter =>
      _ ← op (Debug ("LDAP filter: " +:+ quoted (to_string filter)));
      '(recs, err) ← op (FindObjects (name (l_bucket opts)) filter listOpts);
      results ← on_records opts recs [];
      match err with
      | Some e => mret (Ok (inl e))
      | None => mret (Ok (inr results))
      end
  end.

End MorayObjects.

(** ** The vocabulary and sample data of the further properties *)

Module ObjectViews.
Import Js World Moray MorayObjects Http.

(** The [findObjects] requests of a sequence of calls. *)
Definition finds (t : list Op) : list (string * JsVal * Obj) :=
  omap (fun o => match o with
                 | FindObjects b f lo => Some (b, f, lo)
                 | _ => None
                 end) t.

(** The [putObject] requests of a sequence of calls. *)
Definition puts (t : list Op) : list (string * string * Obj * JsVal) :=
  omap (fun o => match o with
                 | PutObjectAt b k v e => Some (b, k, v, e)
                 | _ => None
                 end) t.

(** Put [obj], then put what the first put returned. *)
Definition put_twice (bucket : Bucket) (obj : Instance) : S (Err + Instance) :=
  first ← putObj bucket obj;
  match first with
  | inl err => mret (inl err)
  | inr obj' => putObj bucket obj'
  end.

(** A value whose lists hold numbers and strings only. *)
Definition plain_elem (x : JsVal) : bool :=
  match x with
  | JNum _ | JStr _ => true
  | _ => false
  end.

Definition plain_value (v : JsVal) : bool :=
  match v with
  | JArr l => forallb plain_elem l
  | JObj o => forallb (fun kv => plain_elem (snd kv)) o
  | _ => true
  end.

(** The buckets looked up by a sequence of calls. *)
Definition buckets_asked (t : list Call) : list string :=
  omap (fun c => match c with GetBucket n => Some n | _ => None end) t.

Definition all_plain (o : Obj) : Prop := forall k, plain_value (prop o k) = true.

(** The pieces pushed by a run of the reducer of [ldapFilter]. *)
Definition pieces (r : Result (Obj * list string)) : Result (list string) :=
  match r with
  | Ok st => Ok (snd st)
  | Throw e => Throw e
  end.

(** Two objects that are equal, or differ at [k] only, where one has the
    string [s] and the other its pieces. *)
Inductive same_but_split (k s : string) : Obj -> Obj -> Prop :=
| sbs_eq o : same_but_split k s o o
| sbs_split base :
    same_but_split k s (set k (JStr s) base)
      (set k (JArr (map JStr (split_sep s))) base).

(** The transitions started by a sequence of calls. *)
Definition transitions (t : list Call) : list (JsVal * Obj) :=
  omap (fun c => match c with Transition a ps => Some (a, ps) | _ => None end) t.

(** The handlers of the recovery-configuration route called [name]. *)
Definition configuration_chain (name : string) : list Handler :=
  match List.find (fun r => String.eqb (route_name r) name)
          (RecoveryConfigurations.registerEndpoints []) with
  | Some r => chain r
  | None => []
  end.

(** A request for a recovery-configuration route. *)
Definition configuration_request (name : string) (p : Obj) : Req :=
  {| route := name; params := p; headers := []; pivtoken := None;
     rawToken := None; recoveryConfig := None |}.

(** [req] with other parameters. *)
Definition with_params (p : Obj) (req : Req) : Req :=
  {| route := route req; params := p; headers := headers req;
     pivtoken := pivtoken req; rawToken := rawToken req;
     recoveryConfig := recoveryConfig req |}.

Definition configuration_not_found : Response :=
  {| status := 404;
     body := error_body
               (ResourceNotFoundError "recovery configuration not found");
     resp_headers := [] |}.

(** Whether a response was sent with status [code]. *)
Definition sent_with (code : Z) (out : Req * Res * Next) : Prop :=
  exists b, sent (snd (fst out)) = Some (code, b).

Definition constants1 : Constants :=
  {| DEFAULT_LIMIT := 1000; DEFAULT_OFFSET := 0 |}.

Definition object_missing : Err :=
  {| names := ["ObjectNotFoundError"]; statusCode := None; restCode := "";
     message := "object not found" |}.

Definition etag_conflict : Err :=
  {| names := ["EtagConflictError"]; statusCode := None; restCode := "";
     message := "etag conflict" |}.

Definition rec1 : Rec :=
  {| rec_key := "G1"; rec_value := [("guid", JStr "G1"); ("cn_uuid", JStr "cn1")];
     rec_etag := JStr "0A" |}.

Definition rec2 : Rec :=
  {| rec_key := "G2"; rec_value := [("guid", JStr "G2"); ("etag", JStr "old")];
     rec_etag := JStr "0B" |}.

(** A store that holds [rec1] and [rec2] and accepts every write. *)
Definition two_records : Client := fun _ o =>
  match o return answer o with
  | DelObject _ _ _ => None
  | GetObject _ _ => inr (JObj [("key", JStr "G1")])
  | PutObjectAt _ _ _ _ => inr [("etag", JStr "0C")]
  | FindObjects _ _ _ => ([rec1; rec2], None)
  | Debug _ => tt
  end.

(** A store without objects, whose requests end in errors. *)
Definition no_objects : Client := fun _ o =>
  match o return answer o with
  | DelObject _ _ _ => Some object_missing
  | GetObject _ _ => inl object_missing
  | PutObjectAt _ _ _ _ => inl etag_conflict
  | FindObjects _ _ _ => ([rec1], Some etag_conflict)
  | Debug _ => tt
  end.

Definition list_all (filter : JsVal) : ListOpts JsVal :=
  {| l_bucket := Samples.pivtokens_bucket; l_filter := filter;
     l_defaultFilter := JStr "(guid=*)"; l_limit := None; l_offset := None;
     l_sort := JUndefined; l_noBucketCache := JUndefined; l_model := None;
     l_extra := None |}.

Definition list_models (extra : Obj) : ListOpts JsVal :=
  {| l_bucket := Samples.pivtokens_bucket; l_filter := JUndefined;
     l_defaultFilter := JStr "(guid=*)"; l_limit := Some 0; l_offset := Some 10;
     l_sort := JUndefined; l_noBucketCache := JBool true;
     l_model := Some JObj; l_extra := Some extra |}.

(** The lookup is broken. *)
Definition lookup_down : Env := fun before c =>
  match c return reply c with
  | PivtokenGetPin _ => inl (Samples.InternalError "no active connections")
  | c' => Samples.empty_store before c'
  end.

(** The token exists, and creating its replacement fails. *)
Definition create_down : Env := fun before c =>
  match c return reply c with
  | PivtokenGetPin _ => inr {| serialize := Samples.token1; raw := Samples.token1 |}
  | PivtokenCreate _ => inl (Samples.InternalError "no active connections")
  | c' => Samples.empty_store before c'
  end.

Definition instance1 : Instance :=
  {| i_key := "G1"; i_raw := [("guid", JStr "G1")]; i_etag := JNull |}.

(** [opts] with another [filter]. *)
Definition with_filter {A} (filter : JsVal) (opts : ListOpts A) : ListOpts A :=
  {| l_bucket := l_bucket opts; l_filter := filter;
     l_defaultFilter := l_defaultFilter opts; l_limit := l_limit opts;
     l_offset := l_offset opts; l_sort := l_sort opts;
     l_noBucketCache := l_noBucketCache opts; l_model := l_model opts;
     l_extra := l_extra opts |}.


End ObjectViews.

(** * Properties *)

(** ** Objects and strings *)

Module JsFacts.
Import Js.

Lemma get_set_eq k v o : get k (set k v o) = Some v.
Proof.
  induction o as [|[k' v'] o IH]; simpl.
  - now rewrite String.eqb_refl.
  - destruct (String.eqb k k') eqn:E; simpl; rewrite E; auto.
Qed.

Lemma get_set_ne k k' v o : k <> k' -> get k' (set k v o) = get k' o.
Proof.
  intros Hne. induction o as [|[k0 v0] o IH]; simpl.
  - destruct (String.eqb k' k) eqn:E; auto.
    apply String.eqb_eq in E. congruence.
  - destruct (String.eqb k k0) eqn:E; simpl.
    + apply String.eqb_eq in E. subst k0.
      destruct (String.eqb k' k) eqn:E'; auto.
      apply String.eqb_eq in E'. congruence.
    + now rewrite IH.
Qed.

Lemma set_set k v v' o : set k v' (set k v o) = set k v' o.
Proof.
  induction o as [|[k0 v0] o IH]; simpl.
  - now rewrite String.eqb_refl.
  - destruct (String.eqb k k0) eqn:E; simpl; rewrite E; auto.
    now rewrite IH.
Qed.

Lemma get_del_eq k o : get k (del k o) = None.
Proof.
  induction o as [|[k0 v0] o IH]; simpl; auto.
  destruct (String.eqb k k0) eqn:E; simpl; auto. now rewrite E.
Qed.

Lemma get_del_ne k k' o : k <> k' -> get k' (del k o) = get k' o.
Proof.
  intros Hne. induction o as [|[k0 v0] o IH]; simpl; auto.
  destruct (String.eqb k k0) eqn:E; simpl.
  - apply String.eqb_eq in E. subst k0.
    destruct (String.eqb k' k) eqn:E'; auto.
    apply String.eqb_eq in E'. congruence.
  - now rewrite IH.
Qed.

Lemma del_set k v o : del k (set k v o) = del k o.
Proof.
  induction o as [|[k0 v0] o IH]; simpl.
  - now rewrite String.eqb_refl.
  - destruct (String.eqb k k0) eqn:E; simpl; rewrite E; auto.
    now rewrite IH.
Qed.

(** The method call is the lookup on an object that does not define
    [hasOwnProperty] itself. *)
Lemma call_hasOwnProperty_plain self o k :
  hasOwnProperty o "hasOwnProperty" = false ->
  call_hasOwnProperty self o k = Ok (hasOwnProperty o k).
Proof. intros H. unfold call_hasOwnProperty. now rewrite H. Qed.


Lemma hasOwnProperty_set_ne k k' v o :
  k <> k' -> hasOwnProperty (set k v o) k' = hasOwnProperty o k'.
Proof. intros H. unfold hasOwnProperty. now rewrite get_set_ne. Qed.


Lemma append_cons c (s t : string) : String c s +:+ t = String c (s +:+ t).
Proof. reflexivity. Qed.

Lemma append_nil_l (s : string) : "" +:+ s = s.
Proof. reflexivity. Qed.

Lemma append_nil_r (s : string) : s +:+ "" = s.
Proof. induction s; rewrite ?append_cons, ?append_nil_l; congruence. Qed.

Lemma append_assoc (a b c : string) : (a +:+ b) +:+ c = a +:+ (b +:+ c).
Proof. induction a; rewrite ?append_cons, ?append_nil_l; congruence. Qed.

(** Reading a comma-free piece only grows the accumulator. *)
Lemma split_comma_from_piece s : has_comma s = false ->
  forall acc rest,
    split_comma_from acc (s +:+ rest) = split_comma_from (acc +:+ s) rest.
Proof.
  induction s as [|c s IH]; simpl; intros H acc rest.
  - now rewrite append_nil_r, append_nil_l.
  - destruct (Ascii.eqb c comma) eqn:E; [discriminate|].
    rewrite IH by assumption. now rewrite append_assoc.
Qed.

Lemma split_join ss :
  ss <> [] -> Forall (fun s => has_comma s = false) ss ->
  split_comma (join_comma ss) = ss.
Proof.
  unfold split_comma. intros Hne Hall.
  induction Hall as [|s ss Hs Hall IH]; [congruence|].
  destruct ss as [|s' ss'].
  - simpl. rewrite <- (append_nil_r s) at 1.
    now rewrite split_comma_from_piece.
  - change (join_comma (s :: s' :: ss'))
      with (s +:+ String comma (join_comma (s' :: ss'))).
    rewrite split_comma_from_piece by assumption.
    simpl. rewrite ?append_nil_l. f_equal. now apply IH.
Qed.

Lemma strip_trailing_comma_snoc s : strip_trailing_comma (s +:+ ",") = s.
Proof.
  induction s as [|c s IH]; [reflexivity|].
  rewrite append_cons. simpl.
  destruct (s +:+ ",") eqn:E.
  - destruct s; discriminate.
  - now rewrite IH.
Qed.

Lemma join_comma_empty ss : join_comma ss = "" -> ss = [] \/ ss = [""].
Proof.
  destruct ss as [|s [|s' ss']]; simpl; auto.
  - intros ->. auto.
  - destruct s; rewrite ?append_cons, ?append_nil_l; discriminate.
Qed.

Lemma join_strings ss : join (map JStr ss) = join_comma ss.
Proof.
  unfold join. f_equal. induction ss; simpl; congruence.
Qed.

(** Splitting on [/\s*,\s*/] never runs out of fuel: any fuel above the
    length of the string gives the same pieces. *)
Lemma skip_spaces_length s : (String.length (skip_spaces s) <= String.length s)%nat.
Proof.
  induction s as [|c s IH]; simpl; [lia|].
  destruct (is_space c); simpl; lia.
Qed.

Lemma match_spaces_comma_length s rest :
  match_spaces_comma s = Some rest ->
  (String.length rest < String.length s)%nat.
Proof.
  unfold match_spaces_comma. pose proof (skip_spaces_length s) as H.
  destruct (skip_spaces s) as [|c s'] eqn:E; [discriminate|].
  destruct (Ascii.eqb c comma); [|discriminate].
  intros [= <-]. simpl in H. lia.
Qed.

Lemma split_sep_from_fuel n : forall m acc s,
  (String.length s < n)%nat -> (String.length s < m)%nat ->
  split_sep_from n acc s = split_sep_from m acc s.
Proof.
  induction n as [|n IH]; intros m acc s Hn Hm; [lia|].
  destruct m as [|m]; [lia|]. cbn [split_sep_from].
  destruct (match_spaces_comma s) as [rest|] eqn:E.
  - apply match_spaces_comma_length in E.
    pose proof (skip_spaces_length rest). f_equal. apply IH; lia.
  - destruct s as [|c s]; [reflexivity|]. simpl in Hn, Hm. apply IH; lia.
Qed.

Example split_sep_blanks :
  split_sep "  a ,b  ,  c d ,," = ["  a"; "b"; "c d"; ""; ""].
Proof. reflexivity. Qed.

End JsFacts.

(** ** The array encoding (moray.js) *)

Module MorayArrays.
Import Js Moray JsFacts Views.

Lemma strip_leading_comma_cons t : strip_leading_comma ("," +:+ t) = t.
Proof. reflexivity. Qed.

Lemma arrayify_string s :
  s <> "" -> arrayify (JStr s) = Ok (JArr (map JStr (split_comma s))).
Proof.
  intros Hs. unfold arrayify. simpl.
  destruct (String.eqb s "") eqn:E; auto.
  apply String.eqb_eq in E. congruence.
Qed.

(** Decoding a field that holds ["," + j + ","], [j] not empty. *)
Lemma valToArray_encoded params key j :
  hasOwnProperty params "hasOwnProperty" = false ->
  get key params = Some (JStr ("," +:+ j +:+ ",")) ->
  "," +:+ j +:+ "," <> ",," ->
  valToArray params key
  = try a := arrayify (JStr (strip_trailing_comma
                               (strip_leading_comma ("," +:+ j +:+ ",")))) in
    Ok (set key a params).
Proof.
  intros Hown Hget Hne. unfold valToArray.
  rewrite call_hasOwnProperty_plain by assumption. cbn [rbind].
  unfold hasOwnProperty, prop.
  rewrite Hget. cbv [negb is_object typeof].
  destruct (String.eqb ("," +:+ j +:+ ",") ",,") eqn:E; auto.
  apply String.eqb_eq in E. congruence.
Qed.

Example arrayToVal_two : arrayToVal [JStr "a"; JStr "b"] = ",a,b,".
Proof. reflexivity. Qed.

Example valToArray_two :
  valToArray [("uuid", JStr "u"); ("targets", JStr ",a,b,")] "targets"
  = Ok [("uuid", JStr "u"); ("targets", JArr [JStr "a"; JStr "b"])].
Proof. reflexivity. Qed.

(** C4, as stated, fails for the empty array: its encoding is [",,"], and
    decoding that deletes the field instead of storing an empty array.  The
    array holding one empty string has the same encoding; an element with a
    comma comes back as two, and a number comes back as a string.  And
    [params.hasOwnProperty(key)] is a call through [params]: with a field
    named [hasOwnProperty], the one decoded or another, decoding throws. *)
Lemma arrays_not_restored :
  arrayToVal [] = ",,"
  /\ valToArray [("targets", JStr (arrayToVal []))] "targets" = Ok []
  /\ ~ roundtrips [] [] "targets"
  /\ ~ roundtrips [JStr ""] [] "targets"
  /\ ~ roundtrips [JStr "a,b"] [] "targets"
  /\ ~ roundtrips [JNum 3] [] "targets"
  /\ ~ roundtrips [JStr "a"] [] "hasOwnProperty"
  /\ ~ roundtrips [JStr "a"] [("hasOwnProperty", JStr "x")] "targets".
Proof.
  split; [reflexivity|]. split; [reflexivity|].
  repeat split; intros [params' [H1 H2]]; vm_compute in H1;
    try discriminate H1; injection H1 as <-; discriminate.
Qed.

(** C4 (amended): in an object that has no field named [hasOwnProperty],
    at a field that is not named so either, an array of comma-free strings,
    other than the empty array and the array holding one empty string,
    round-trips: decoding its encoding stores the same array in the field
    and leaves the other fields alone.  The empty array encodes to [",,"],
    and decoding [",,"] removes the field. *)
Theorem arrayToVal_valToArray (ss : list string) (params : Obj) (key : string) :
  hasOwnProperty params "hasOwnProperty" = false ->
  key <> "hasOwnProperty" ->
  Forall (fun s => has_comma s = false) ss ->
  ss <> [] -> ss <> [""] ->
  valToArray (set key (JStr (arrayToVal (map JStr ss))) params) key
    = Ok (set key (JArr (map JStr ss)) params)
  /\ roundtrips (map JStr ss) params key
  /\ arrayToVal [] = ",,"
  /\ valToArray (set key (JStr (arrayToVal [])) params) key = Ok (del key params).
Proof.
  intros Hown Hkey Hall Hne Hne1.
  assert (Hown' : forall v, hasOwnProperty (set key v params) "hasOwnProperty" = false).
  { intros v. now rewrite hasOwnProperty_set_ne. }
  assert (Hj : join_comma ss <> "").
  { intros E. apply join_comma_empty in E. tauto. }
  assert (H : valToArray (set key (JStr (arrayToVal (map JStr ss))) params) key
              = Ok (set key (JArr (map JStr ss)) params)).
  { rewrite (valToArray_encoded _ _ (join_comma ss)).
    - rewrite strip_leading_comma_cons, strip_trailing_comma_snoc.
      rewrite arrayify_string by assumption.
      rewrite split_join by assumption. simpl. now rewrite set_set.
    - apply Hown'.
    - unfold arrayToVal. rewrite join_strings. apply get_set_eq.
    - destruct (join_comma ss) as [|c j]; [congruence|].
      rewrite !append_cons, append_nil_l. intros H.
      injection H as _ H. destruct j; discriminate. }
  split; [exact H|]. split.
  - exists (set key (JArr (map JStr ss)) params). split; [exact H|].
    apply get_set_eq.
  - split; [reflexivity|].
    unfold valToArray. rewrite call_hasOwnProperty_plain by apply Hown'.
    cbn [rbind]. unfold hasOwnProperty, prop. rewrite get_set_eq. simpl.
    now rewrite del_set.
Qed.

Lemma arrayToVal_valToArray_witness :
  valToArray (set "targets" (JStr (arrayToVal (map JStr ["cn1"; "cn2"]))) [("uuid", JStr "u")]) "targets"
    = Ok (set "targets" (JArr (map JStr ["cn1"; "cn2"])) [("uuid", JStr "u")])
  /\ roundtrips (map JStr ["cn1"; "cn2"]) [("uuid", JStr "u")] "targets"
  /\ arrayToVal [] = ",,"
  /\ valToArray (set "targets" (JStr (arrayToVal [])) [("uuid", JStr "u")]) "targets"
     = Ok (del "targets" [("uuid", JStr "u")]).
Proof.
  apply (arrayToVal_valToArray ["cn1"; "cn2"] [("uuid", JStr "u")] "targets").
  - reflexivity.
  - discriminate.
  - repeat constructor.
  - discriminate.
  - discriminate.
Defined.

End MorayArrays.

(** ** The filter builder (moray.js) *)

Module MorayFilter.
Import Js World Moray JsFacts Views Samples.

(** An object that has neither a [filter] nor a [hasOwnProperty] property
    goes through the reducer. *)
Lemma ldapFilter_fields bucket o :
  hasOwnProperty o "filter" = false ->
  hasOwnProperty o "hasOwnProperty" = false ->
  ldapFilter (JObj o) bucket = filter_fields bucket o.
Proof.
  intros Hf Hown. unfold ldapFilter. simpl.
  rewrite call_hasOwnProperty_plain, Hf by assumption.
  destruct o; reflexivity.
Qed.


Section Restriction.
Variable b : Bucket.
Hypothesis Hindex : hasOwnProperty (index (schema b)) "hasOwnProperty" = false.

Lemma not_indexed_plain k : not_indexed (Some b) k = Ok (negb (indexed b k)).
Proof.
  unfold not_indexed. now rewrite call_hasOwnProperty_plain by assumption.
Qed.

Lemma get_indexed_only k o :
  indexed b k = true -> get k (indexed_only b o) = get k o.
Proof.
  intros Hk. induction o as [|[k0 v0] o IH]; simpl; auto.
  destruct (indexed b k0) eqn:E0; simpl.
  - now rewrite IH.
  - destruct (String.eqb k k0) eqn:E; auto.
    apply String.eqb_eq in E. congruence.
Qed.

Lemma get_indexed_only_none k o :
  get k o = None -> get k (indexed_only b o) = None.
Proof.
  induction o as [|[k0 v0] o IH]; simpl; auto.
  destruct (String.eqb k k0) eqn:E; [discriminate|].
  intros H. destruct (indexed b k0); simpl; rewrite ?E; auto.
Qed.

Lemma indexed_only_set k v o :
  indexed b k = true -> indexed_only b (set k v o) = set k v (indexed_only b o).
Proof.
  intros Hk. induction o as [|[k0 v0] o IH]; simpl.
  - now rewrite Hk.
  - destruct (String.eqb k k0) eqn:E; simpl.
    + apply String.eqb_eq in E. subst k0. rewrite Hk. simpl.
      now rewrite String.eqb_refl.
    + destruct (indexed b k0); simpl; rewrite ?E, IH; auto.
Qed.

Lemma indexed_only_set_other k v o :
  indexed b k = false -> indexed_only b (set k v o) = indexed_only b o.
Proof.
  intros Hk. induction o as [|[k0 v0] o IH]; simpl.
  - now rewrite Hk.
  - destruct (String.eqb k k0) eqn:E; simpl.
    + apply String.eqb_eq in E. subst k0. now rewrite Hk.
    + destruct (indexed b k0); simpl; rewrite ?IH; auto.
Qed.

Lemma keys_indexed_only o :
  keys (indexed_only b o) = List.filter (indexed b) (keys o).
Proof.
  induction o as [|[k0 v0] o IH]; simpl; auto.
  destruct (indexed b k0); simpl; now rewrite IH.
Qed.

Lemma split_listed_indexed_only k o :
  indexed b k = true ->
  split_listed k (indexed_only b o) = indexed_only b (split_listed k o).
Proof.
  intros Hk. unfold split_listed, prop. rewrite get_indexed_only by assumption.
  destruct (get k o) as [[| | | |s| |]|]; auto.
  destruct (has_comma s); auto. now rewrite indexed_only_set.
Qed.

(** A turn on an indexed key does the same on the restricted object. *)
Lemma filter_step_indexed o arr k :
  indexed b k = true ->
  filter_step (Some b) (indexed_only b o, arr) k
  = on_object (indexed_only b) (filter_step (Some b) (o, arr) k).
Proof.
  intros Hk. unfold filter_step. rewrite not_indexed_plain, Hk.
  cbv [negb rbind]. rewrite split_listed_indexed_only by assumption.
  unfold prop. rewrite get_indexed_only by assumption.
  destruct (filter_pieces _ _); reflexivity.
Qed.

Lemma filter_step_not_indexed st k :
  indexed b k = false -> filter_step (Some b) st k = Ok st.
Proof.
  intros Hk. destruct st as [o arr]. unfold filter_step.
  now rewrite not_indexed_plain, Hk.
Qed.

Lemma rfold_indexed_only ks : forall o arr,
  rfold (filter_step (Some b)) (List.filter (indexed b) ks) (indexed_only b o, arr)
  = on_object (indexed_only b) (rfold (filter_step (Some b)) ks (o, arr)).
Proof.
  induction ks as [|k ks IH]; intros o arr; [reflexivity|].
  cbn [List.filter]. destruct (indexed b k) eqn:Hk; cbn [rfold].
  - rewrite filter_step_indexed by assumption.
    destruct (filter_step (Some b) (o, arr) k) as [[o' arr']|e];
      cbn [on_object rbind]; auto.
  - rewrite filter_step_not_indexed by assumption. cbn [rbind]. apply IH.
Qed.

Lemma filter_fields_indexed_only o :
  filter_fields (Some b) (indexed_only b o) = filter_fields (Some b) o.
Proof.
  unfold filter_fields. rewrite keys_indexed_only, rfold_indexed_only.
  destruct (rfold _ _ _) as [[o' arr']|e]; reflexivity.
Qed.

Lemma hasOwnProperty_indexed_only k o :
  hasOwnProperty o k = false -> hasOwnProperty (indexed_only b o) k = false.
Proof.
  unfold hasOwnProperty. destruct (get k o) eqn:E; [discriminate|].
  now rewrite get_indexed_only_none.
Qed.

Lemma ldapFilter_indexed_only o :
  hasOwnProperty o "filter" = false ->
  hasOwnProperty o "hasOwnProperty" = false ->
  ldapFilter (JObj o) (Some b) = ldapFilter (JObj (indexed_only b o)) (Some b).
Proof.
  intros Hf Hown. rewrite !ldapFilter_fields; auto.
  - now rewrite filter_fields_indexed_only.
  - now apply hasOwnProperty_indexed_only.
  - now apply hasOwnProperty_indexed_only.
Qed.

End Restriction.

Example ldapFilter_ex1 :
  let b := {| desc := "pivtoken"; name := "kbmapi_pivtokens";
              schema := {| index := [("guid", JObj []); ("cn_uuid", JObj [])];
                           fields := [] |};
              version := None; name_prefixed := false |} in
  ldapFilter (JObj [("guid", JStr "a , b,!c"); ("pin", JStr "1234");
                    ("cn_uuid", JNum 5)]) (Some b)
  = Ok (JStr "(&(|(guid=a)(guid=b)(!(guid=c)))(cn_uuid=5))").
Proof. reflexivity. Qed.

(** C5, as stated, fails for a parameter object with a property named
    [hasOwnProperty]: [inObj.hasOwnProperty('filter')] is a call through the
    object, so that property, which is not indexed, is not ignored but makes
    [ldapFilter] throw, where the indexed properties alone give a filter.
    It fails likewise for a bucket whose index has a field of that name:
    [bucket.schema.index.hasOwnProperty(i)] throws at the first property,
    indexed or not. *)
Lemma unindexed_key_not_ignored :
  hasOwnProperty [("hasOwnProperty", JStr "x"); ("guid", JStr "G1")] "filter" = false
  /\ indexed pivtokens_bucket "hasOwnProperty" = false
  /\ indexed_only pivtokens_bucket [("hasOwnProperty", JStr "x"); ("guid", JStr "G1")]
     = [("guid", JStr "G1")]
  /\ ldapFilter (JObj [("guid", JStr "G1")]) (Some pivtokens_bucket)
     = Ok (JStr "(guid=G1)")
  /\ ldapFilter (JObj [("hasOwnProperty", JStr "x"); ("guid", JStr "G1")])
       (Some pivtokens_bucket)
     = Throw "TypeError: inObj.hasOwnProperty is not a function"
  /\ indexed odd_bucket "pin" = false
  /\ ldapFilter (JObj (indexed_only odd_bucket [("pin", JStr "1234")]))
       (Some odd_bucket)
     = Ok (JStr "")
  /\ ldapFilter (JObj [("pin", JStr "1234")]) (Some odd_bucket)
     = Throw "TypeError: bucket.schema.index.hasOwnProperty is not a function".
Proof. repeat split. Qed.

(** C5 (amended): for a plain parameter object (one without a [filter]
    property) that has no property named [hasOwnProperty], and a bucket whose
    index has no field of that name, the filter is the one built from the
    indexed properties alone: it is unchanged when the properties that are
    not in [bucket.schema.index] are dropped, it is empty when none is
    indexed, and setting a property that is not indexed does not change
    it. *)
Theorem ldapFilter_ignores_unindexed (b : Bucket) (o : Obj) :
  hasOwnProperty o "filter" = false ->
  hasOwnProperty o "hasOwnProperty" = false ->
  hasOwnProperty (index (schema b)) "hasOwnProperty" = false ->
  ldapFilter (JObj o) (Some b) = ldapFilter (JObj (indexed_only b o)) (Some b)
  /\ (indexed_only b o = [] -> ldapFilter (JObj o) (Some b) = Ok (JStr ""))
  /\ (forall k v, indexed b k = false -> k <> "filter" ->
        k <> "hasOwnProperty" ->
        ldapFilter (JObj (set k v o)) (Some b) = ldapFilter (JObj o) (Some b)).
Proof.
  intros Hf Hown Hindex. split; [now apply ldapFilter_indexed_only|]. split.
  - intros E. rewrite ldapFilter_indexed_only, E by assumption. reflexivity.
  - intros k v Hk Hne Hne'.
    rewrite (ldapFilter_indexed_only b Hindex (set k v o))
      by now rewrite hasOwnProperty_set_ne.
    rewrite indexed_only_set_other by assumption.
    symmetry. now apply ldapFilter_indexed_only.
Qed.

Lemma ldapFilter_ignores_unindexed_witness :
  let o := [("pin", JStr "1234"); ("guid", JStr "97496DD1C8F053DE7450CD854D9C95B4")] in
  ldapFilter (JObj o) (Some pivtokens_bucket)
    = ldapFilter (JObj (indexed_only pivtokens_bucket o)) (Some pivtokens_bucket)
  /\ (indexed_only pivtokens_bucket o = [] ->
        ldapFilter (JObj o) (Some pivtokens_bucket) = Ok (JStr ""))
  /\ (forall k v, indexed pivtokens_bucket k = false -> k <> "filter" ->
        k <> "hasOwnProperty" ->
        ldapFilter (JObj (set k v o)) (Some pivtokens_bucket)
        = ldapFilter (JObj o) (Some pivtokens_bucket)).
Proof.
  apply (ldapFilter_ignores_unindexed pivtokens_bucket
           [("pin", JStr "1234"); ("guid", JStr "97496DD1C8F053DE7450CD854D9C95B4")]);
    reflexivity.
Defined.

(** C9, as stated, fails for an object that has, beside its [filter]
    property, a property named [hasOwnProperty]: the test
    [inObj.hasOwnProperty('filter')] is a call through the object and throws,
    so the [filter] property is not returned. *)
Lemma filter_property_not_returned :
  get "filter" [("hasOwnProperty", JStr "x"); ("filter", JStr "(pin=1234)")]
  = Some (JStr "(pin=1234)")
  /\ ldapFilter (JObj [("hasOwnProperty", JStr "x"); ("filter", JStr "(pin=1234)")])
       None
     = Throw "TypeError: inObj.hasOwnProperty is not a function"
  /\ ldapFilter (JObj [("hasOwnProperty", JStr "x"); ("filter", JStr "(pin=1234)")])
       (Some pivtokens_bucket)
     <> Ok (JStr "(pin=1234)").
Proof. repeat split. discriminate. Qed.

(** C9 (amended): a string is returned as it is, and an object with an own
    [filter] property, and none named [hasOwnProperty], gives that
    property's value whatever its type, with or without a bucket: on these
    two shapes the index is never consulted. *)
Theorem ldapFilter_passes_through
    (s : string) (o : Obj) (v : JsVal) (bucket : option Bucket) :
  get "filter" o = Some v ->
  hasOwnProperty o "hasOwnProperty" = false ->
  ldapFilter (JStr s) bucket = Ok (JStr s)
  /\ ldapFilter (JObj o) bucket = Ok v.
Proof.
  intros Hf Hown. split.
  - unfold ldapFilter. simpl. destruct (String.eqb s "") eqn:E; simpl; auto.
    apply String.eqb_eq in E. now subst.
  - unfold ldapFilter. simpl.
    rewrite call_hasOwnProperty_plain by assumption.
    unfold hasOwnProperty, prop. rewrite Hf.
    destruct o; [discriminate|reflexivity].
Qed.

Lemma ldapFilter_passes_through_witness :
  ldapFilter (JStr "(pin=1234)") (Some pivtokens_bucket) = Ok (JStr "(pin=1234)")
  /\ ldapFilter (JObj [("guid", JStr "g"); ("filter", JNum 42)]) (Some pivtokens_bucket)
     = Ok (JNum 42).
Proof.
  apply (ldapFilter_passes_through "(pin=1234)"
           [("guid", JStr "g"); ("filter", JNum 42)] (JNum 42)
           (Some pivtokens_bucket)); reflexivity.
Defined.

End MorayFilter.

(** ** Running calls and chains *)

Module TraceFacts.
Import Js World Http.

(** Unfold the plumbing of [M]. *)
Ltac step_m :=
  repeat progress (cbv [run mbind mret M_bind M_ret call]; cbn).

Ltac step_m_in H :=
  repeat progress (cbv [run mbind mret M_bind M_ret call] in H; cbn in H).

(** Expose the first action of a sequence. *)
Ltac bind_m := cbv beta delta [mbind M_bind].

(** One handler, then the rest of the chain. *)
Lemma run_chain_cons h hs req res env t :
  run_chain (h :: hs) req res env t
  = let '((req', res', n), t') := h req res env t in
    match n with
    | Continue => run_chain hs req' res' env t'
    | _ => ((req', res', n), t')
    end.
Proof.
  cbn [run_chain]. cbv [mbind M_bind mret M_ret].
  destruct (h req res env t) as [[[req' res'] n] t'].
  destruct n; reflexivity.
Qed.

Lemma run_chain_nil req res env t :
  run_chain [] req res env t = ((req, res, Continue), t).
Proof. reflexivity. Qed.

End TraceFacts.

(** ** Archive, then delete (pivtokens.js) *)

Module PivtokensArchive.
Import Js World Http Auth Pivtokens Views Samples TraceFacts.

Section Archive.
Variable env : Env.
Variable token : Obj.
Variable g : string.
Hypothesis Hguid : prop token "guid" = JStr g.

Let archive := PivtokenHistoryCreate (JObj token).
Let remove := PivtokenDel (JObj token).

Lemma archiveAndDeletePivtoken_archive_fails t0 e :
  env t0 archive = Some e ->
  archiveAndDeletePivtoken (Some token) env t0 = (Ok (Some e), t0 ++ [archive]).
Proof.
  intros He. unfold archiveAndDeletePivtoken. rewrite Hguid.
  step_m. fold archive. now rewrite He.
Qed.

Lemma archiveAndDeletePivtoken_archived t0 :
  env t0 archive = None ->
  archiveAndDeletePivtoken (Some token) env t0
  = (Ok (env (t0 ++ [archive]) remove), (t0 ++ [archive]) ++ [remove]).
Proof.
  intros He. unfold archiveAndDeletePivtoken. rewrite Hguid.
  step_m. fold archive. rewrite He. fold remove.
  destruct (env (t0 ++ [archive]) remove); reflexivity.
Qed.

End Archive.

Example archive_down :
  run (deletePivtoken (req1 "deltoken") empty_res) history_down
  = ((req1 "deltoken", empty_res, Fail (InternalError "no active connections")),
     [PivtokenHistoryCreate (JObj token1)]).
Proof. reflexivity. Qed.

Example archive_and_delete :
  run (deletePivtoken (req1 "deltoken") empty_res) empty_store
  = ((req1 "deltoken", res_send 204 JUndefined empty_res, Continue),
     [PivtokenHistoryCreate (JObj token1); PivtokenDel (JObj token1)]).
Proof. reflexivity. Qed.

(** C1: deleting or recovering a pre-loaded token first asks for a history
    record made of the raw token, and only then for the deletion of the live
    token.  When the archival fails its error goes to the callback and no
    deletion is asked for; when the deletion fails after the archival, its
    error goes to the callback and nothing is asked for after it: the history
    record written stays. *)
Theorem archive_then_delete
    (env : Env) (t0 : list Call) (req : Req) (res : Res) (tk token : Obj)
    (g : string) :
  pivtoken req = Some tk -> rawToken req = Some token ->
  prop token "guid" = JStr g ->
  let archive := PivtokenHistoryCreate (JObj token) in
  let remove := PivtokenDel (JObj token) in
  (forall historyErr, env t0 archive = Some historyErr ->
     archiveAndDeletePivtoken (Some token) env t0
       = (Ok (Some historyErr), t0 ++ [archive])
     /\ deletePivtoken req res env t0
        = ((req, res, Fail historyErr), t0 ++ [archive])
     /\ recoveryPivtoken req res env t0
        = ((req, res, Fail historyErr), t0 ++ [archive])
     /\ deleted (t0 ++ [archive]) = deleted t0)
  /\ (env t0 archive = None ->
      archiveAndDeletePivtoken (Some token) env t0
        = (Ok (env (t0 ++ [archive]) remove), t0 ++ [archive; remove])
      /\ archived (t0 ++ [archive; remove]) = archived t0 ++ [JObj token]
      /\ deleted (t0 ++ [archive; remove]) = deleted t0 ++ [JObj token]
      /\ forall err, env (t0 ++ [archive]) remove = Some err ->
           deletePivtoken req res env t0
             = ((req, res, Fail err), t0 ++ [archive; remove])
           /\ recoveryPivtoken req res env t0
              = ((req, res, Fail err), t0 ++ [archive; remove])).
Proof.
  intros Hp Hr Hg archive remove. subst archive remove. split.
  - intros e He.
    pose proof (archiveAndDeletePivtoken_archive_fails env token g Hg t0 e He) as H.
    cbv zeta in H. split; [exact H|]. unfold deletePivtoken, recoveryPivtoken.
    rewrite Hp, Hr. bind_m. rewrite H.
    repeat split. unfold deleted. rewrite omap_app. simpl. apply app_nil_r.
  - intros He.
    pose proof (archiveAndDeletePivtoken_archived env token g Hg t0 He) as H.
    cbv zeta in H. rewrite <- app_assoc in H. split; [exact H|].
    split; [|split].
    + unfold archived. now rewrite omap_app.
    + unfold deleted. now rewrite omap_app.
    + intros err Herr. unfold deletePivtoken, recoveryPivtoken.
      rewrite Hp, Hr. bind_m. rewrite H. cbv iota beta. rewrite Herr.
      split; reflexivity.
Qed.

Lemma archive_then_delete_witness :
  let archive := PivtokenHistoryCreate (JObj token1) in
  let remove := PivtokenDel (JObj token1) in
  (forall historyErr, history_down [] archive = Some historyErr ->
     archiveAndDeletePivtoken (Some token1) history_down []
       = (Ok (Some historyErr), [] ++ [archive])
     /\ deletePivtoken (req1 "deltoken") empty_res history_down []
        = ((req1 "deltoken", empty_res, Fail historyErr), [] ++ [archive])
     /\ recoveryPivtoken (req1 "deltoken") empty_res history_down []
        = ((req1 "deltoken", empty_res, Fail historyErr), [] ++ [archive])
     /\ deleted ([] ++ [archive]) = deleted [])
  /\ (history_down [] archive = None ->
      archiveAndDeletePivtoken (Some token1) history_down []
        = (Ok (history_down ([] ++ [archive]) remove), [] ++ [archive; remove])
      /\ archived ([] ++ [archive; remove]) = archived [] ++ [JObj token1]
      /\ deleted ([] ++ [archive; remove]) = deleted [] ++ [JObj token1]
      /\ forall err, history_down ([] ++ [archive]) remove = Some err ->
           deletePivtoken (req1 "deltoken") empty_res history_down []
             = ((req1 "deltoken", empty_res, Fail err), [] ++ [archive; remove])
           /\ recoveryPivtoken (req1 "deltoken") empty_res history_down []
              = ((req1 "deltoken", empty_res, Fail err), [] ++ [archive; remove])).
Proof.
  apply (archive_then_delete history_down [] (req1 "deltoken") empty_res
           (del "pin" token1) token1 "97496DD1C8F053DE7450CD854D9C95B4");
    reflexivity.
Defined.

End PivtokensArchive.

(** ** Pre-loading, creation, authentication and recovery (pivtokens.js) *)

Module PivtokensRoutes.
Import Js World Http Auth Pivtokens Views Samples TraceFacts PivtokensArchive.

Section Preload.
Variable env : Env.
Variable req : Req.
Variable guid : JsVal.
Hypothesis Hguid : preload_guid (params req) = Ok guid.

Lemma preloadPivtoken_found res t token :
  env t (PivtokenGetPin [("guid", guid)]) = inr token ->
  preloadPivtoken req res env t
  = ((preloaded req token, res, Continue), t ++ [PivtokenGetPin [("guid", guid)]]).
Proof.
  intros He. unfold preloadPivtoken. rewrite Hguid.
  cbv [mbind mret M_bind M_ret call]. now rewrite He.
Qed.

Lemma preloadPivtoken_missing res t err :
  env t (PivtokenGetPin [("guid", guid)]) = inl err ->
  statusCode err = Some 404 ->
  preloadPivtoken req res env t
  = ((req, res, Continue), t ++ [PivtokenGetPin [("guid", guid)]]).
Proof.
  intros He H404. unfold preloadPivtoken. rewrite Hguid.
  cbv [mbind mret M_bind M_ret call]. rewrite He.
  destruct (decide (statusCode err = Some 404)); [reflexivity|contradiction].
Qed.

Lemma preloadPivtoken_error res t err :
  env t (PivtokenGetPin [("guid", guid)]) = inl err ->
  statusCode err <> Some 404 ->
  preloadPivtoken req res env t
  = ((req, res, Fail err), t ++ [PivtokenGetPin [("guid", guid)]]).
Proof.
  intros He H404. unfold preloadPivtoken. rewrite Hguid.
  cbv [mbind mret M_bind M_ret call]. rewrite He.
  destruct (decide (statusCode err = Some 404)); [contradiction|reflexivity].
Qed.

End Preload.

Example create_new :
  run (run_chain [preloadPivtoken; createPivtoken]
         (request "createtoken" token1 []) empty_res) empty_store
  = ((request "createtoken" token1 [],
      res_send 201 (JObj (del "pin" token1)) empty_res, Continue),
     [PivtokenGetPin [("guid", JStr "97496DD1C8F053DE7450CD854D9C95B4")];
      PivtokenCreate (JObj token1)]).
Proof. reflexivity. Qed.

Example create_again :
  run (run_chain [preloadPivtoken; createPivtoken]
         (request "createtoken" token1 []) empty_res) store1
  = ((preloaded (request "createtoken" token1 [])
        {| serialize := token1; raw := token1 |},
      res_send 200 (JObj token1) empty_res, Continue),
     [PivtokenGetPin [("guid", JStr "97496DD1C8F053DE7450CD854D9C95B4")]]).
Proof. reflexivity. Qed.

(** C2: when the token of the request's GUID exists, pre-loading attaches it
    and [createPivtoken] answers 200 with its serialized view without calling
    anything: no token is created and no error is raised.  A token is
    created, and 201 answered, only when the lookup said 404. *)
Theorem createPivtoken_existing
    (env : Env) (req : Req) (guid : JsVal) :
  preload_guid (params req) = Ok guid ->
  let lookup := PivtokenGetPin [("guid", guid)] in
  let create := PivtokenCreate (JObj (params req)) in
  let out := run (run_chain [preloadPivtoken; createPivtoken] req empty_res) env in
  (forall token, env [] lookup = inr token ->
     out = ((preloaded req token,
             res_send 200 (JObj (serialize token)) empty_res, Continue),
            [lookup])
     /\ response (fst out)
        = Some {| status := 200; body := JObj (serialize token);
                  resp_headers := [] |}
     /\ created (snd out) = [])
  /\ (forall tk res t, pivtoken req = Some tk ->
        createPivtoken req res env t
        = ((req, res_send 200 (JObj tk) res, Continue), t))
  /\ (forall err token, pivtoken req = None ->
        env [] lookup = inl err -> statusCode err = Some 404 ->
        env [lookup] create = inr token ->
        out = ((req, res_send 201 (JObj (serialize token)) empty_res, Continue),
               [lookup; create]))
  /\ (created (snd out) <> []
      \/ (exists b, sent (snd (fst (fst out))) = Some (201, b)) ->
      exists err, env [] lookup = inl err /\ statusCode err = Some 404).
Proof.
  intros Hguid lookup create out. subst lookup create out. unfold run.
  split; [|split; [|split]].
  - intros token He.
    rewrite run_chain_cons,
      (preloadPivtoken_found env req guid Hguid _ _ token) by assumption.
    repeat split.
  - intros tk res t Hp. unfold createPivtoken. now rewrite Hp.
  - intros err token Hp He H404 Hc.
    rewrite run_chain_cons,
      (preloadPivtoken_missing env req guid Hguid _ _ err) by assumption.
    cbn [app]. rewrite run_chain_cons. unfold createPivtoken. rewrite Hp.
    cbv [mbind mret M_bind M_ret call]. cbn [app]. now rewrite Hc.
  - intros H.
    destruct (env [] (PivtokenGetPin [("guid", guid)])) as [err|token] eqn:He.
    + destruct (decide (statusCode err = Some 404)) as [H404|H404]; [eauto|].
      exfalso. rewrite run_chain_cons,
        (preloadPivtoken_error env req guid Hguid _ _ err) in H by assumption.
      step_m_in H. destruct H as [H|[b H]]; [congruence|discriminate].
    + exfalso. rewrite run_chain_cons,
        (preloadPivtoken_found env req guid Hguid _ _ token) in H by assumption.
      step_m_in H. destruct H as [H|[b H]]; [congruence|discriminate].
Qed.

Lemma createPivtoken_existing_witness :
  let req := request "createtoken" token1 [] in
  let guid := JStr "97496DD1C8F053DE7450CD854D9C95B4" in
  let lookup := PivtokenGetPin [("guid", guid)] in
  let create := PivtokenCreate (JObj (params req)) in
  let out := run (run_chain [preloadPivtoken; createPivtoken] req empty_res) store1 in
  (forall token, store1 [] lookup = inr token ->
     out = ((preloaded req token,
             res_send 200 (JObj (serialize token)) empty_res, Continue),
            [lookup])
     /\ response (fst out)
        = Some {| status := 200; body := JObj (serialize token);
                  resp_headers := [] |}
     /\ created (snd out) = [])
  /\ (forall tk res t, pivtoken req = Some tk ->
        createPivtoken req res store1 t
        = ((req, res_send 200 (JObj tk) res, Continue), t))
  /\ (forall err token, pivtoken req = None ->
        store1 [] lookup = inl err -> statusCode err = Some 404 ->
        store1 [lookup] create = inr token ->
        out = ((req, res_send 201 (JObj (serialize token)) empty_res, Continue),
               [lookup; create]))
  /\ (created (snd out) <> []
      \/ (exists b, sent (snd (fst (fst out))) = Some (201, b)) ->
      exists err, store1 [] lookup = inl err /\ statusCode err = Some 404).
Proof.
  apply (createPivtoken_existing store1 (request "createtoken" token1 [])
           (JStr "97496DD1C8F053DE7450CD854D9C95B4")).
  reflexivity.
Defined.

Section Authenticated.
Context `{V : Verifier}.

Lemma signatureAuth_no_token req res env t :
  rawToken req = None ->
  signatureAuth req res env t = ((req, res, Continue), t)
  \/ signatureAuth req res env t
     = ((req, res, Fail (ResourceNotFoundError "pivtoken not found")), t).
Proof.
  intros H. unfold signatureAuth. rewrite H.
  destruct (absent_fails && _); auto.
Qed.

Lemma signatureAuth_rejected req res env t token :
  rawToken req = Some token ->
  verified (route req) token (headers req) = false ->
  signatureAuth req res env t
  = ((req, res, Fail (ResourceNotFoundError "pivtoken not found")), t).
Proof. intros H Hv. unfold signatureAuth. now rewrite H, Hv. Qed.

Lemma signatureAuth_accepted req res env t token :
  rawToken req = Some token ->
  verified (route req) token (headers req) = true ->
  signatureAuth req res env t = ((req, res, Continue), t).
Proof. intros H Hv. unfold signatureAuth. now rewrite H, Hv. Qed.

Lemma route_chain_pin :
  route_chain [] "gettokenpin" = [preloadPivtoken; signatureAuth; getPivtokenPin].
Proof. reflexivity. Qed.

Lemma route_chain_del :
  route_chain [] "deltoken" = [preloadPivtoken; signatureAuth; deletePivtoken].
Proof. reflexivity. Qed.

Lemma route_chain_recover :
  route_chain [] "recoverytoken"
  = [preloadPivtoken; signatureAuth; recoveryPivtoken].
Proof. reflexivity. Qed.

(** The last handler of an authenticated route answers "not found" when no
    token is attached. *)
Lemma last_handler_not_found h req res env t :
  In h [getPivtokenPin; deletePivtoken; recoveryPivtoken] ->
  pivtoken req = None ->
  h req res env t
  = ((req, res, Fail (ResourceNotFoundError "pivtoken not found")), t).
Proof.
  intros Hh Hp. simpl in Hh.
  destruct Hh as [<-|[<-|[<-|[]]]];
    unfold getPivtokenPin, deletePivtoken, recoveryPivtoken; now rewrite Hp.
Qed.

(** A route whose handlers are pre-loading, authentication and one of the
    three handlers above. *)
Lemma authenticated_absent h (env : Env) p hdrs name guid err :
  In h [getPivtokenPin; deletePivtoken; recoveryPivtoken] ->
  preload_guid p = Ok guid ->
  env [] (PivtokenGetPin [("guid", guid)]) = inl err ->
  statusCode err = Some 404 ->
  run (run_chain [preloadPivtoken; signatureAuth; h] (request name p hdrs)
         empty_res) env
  = ((request name p hdrs, empty_res,
      Fail (ResourceNotFoundError "pivtoken not found")),
     [PivtokenGetPin [("guid", guid)]]).
Proof.
  intros Hh Hg He H404. unfold run.
  rewrite run_chain_cons,
    (preloadPivtoken_missing env (request name p hdrs) guid Hg _ _ err)
    by assumption.
  rewrite run_chain_cons.
  destruct (signatureAuth_no_token (request name p hdrs) empty_res env
              ([] ++ [PivtokenGetPin [("guid", guid)]]) eq_refl) as [-> | ->];
    [|reflexivity].
  rewrite run_chain_cons, (last_handler_not_found h) by (assumption || reflexivity).
  reflexivity.
Qed.

Lemma authenticated_rejected h (env : Env) p hdrs name guid token :
  preload_guid p = Ok guid ->
  env [] (PivtokenGetPin [("guid", guid)]) = inr token ->
  verified name (raw token) hdrs = false ->
  run (run_chain [preloadPivtoken; signatureAuth; h] (request name p hdrs)
         empty_res) env
  = ((preloaded (request name p hdrs) token, empty_res,
      Fail (ResourceNotFoundError "pivtoken not found")),
     [PivtokenGetPin [("guid", guid)]]).
Proof.
  intros Hg He Hv. unfold run.
  rewrite run_chain_cons,
    (preloadPivtoken_found env (request name p hdrs) guid Hg _ _ token)
    by assumption.
  rewrite run_chain_cons, (signatureAuth_rejected _ _ _ _ (raw token))
    by (reflexivity || assumption).
  reflexivity.
Qed.

End Authenticated.

Example pin_unsigned :
  response (fst (run (@serve toy_verifier
                        (request "gettokenpin" [("guid", JStr "G1")] []))
                   store1))
  = Some not_found.
Proof. reflexivity. Qed.

Example pin_signed :
  response (fst (run (@serve toy_verifier
                        (request "gettokenpin" [("guid", JStr "G1")]
                           [("signature", JStr "ecdsa-sha2-nistp256 AAAA")]))
                   store1))
  = Some {| status := 200; body := JObj token1; resp_headers := [] |}.
Proof. reflexivity. Qed.

(** C3: on the pin, delete and recover routes, a request for a GUID that no
    token has and a request whose verification fails against an existing
    token receive the same response, the 404 "pivtoken not found", and
    neither goes beyond the lookup. *)
Theorem auth_failure_as_not_found `{V : Verifier}
    (env_absent env_present : Env) (name : string)
    (p_absent p_present hdrs_absent hdrs_present : Obj)
    (guid_absent guid_present : JsVal) (err : Err) (token : Model) :
  In name ["gettokenpin"; "deltoken"; "recoverytoken"] ->
  preload_guid p_absent = Ok guid_absent ->
  preload_guid p_present = Ok guid_present ->
  env_absent [] (PivtokenGetPin [("guid", guid_absent)]) = inl err ->
  statusCode err = Some 404 ->
  env_present [] (PivtokenGetPin [("guid", guid_present)]) = inr token ->
  verified name (raw token) hdrs_present = false ->
  let out_absent := run (serve (request name p_absent hdrs_absent)) env_absent in
  let out_present := run (serve (request name p_present hdrs_present)) env_present in
  response (fst out_absent) = Some not_found
  /\ response (fst out_present) = Some not_found
  /\ response (fst out_absent) = response (fst out_present)
  /\ snd out_absent = [PivtokenGetPin [("guid", guid_absent)]]
  /\ snd out_present = [PivtokenGetPin [("guid", guid_present)]].
Proof.
  intros Hname Hga Hgp Hea H404 Hep Hv out_absent out_present.
  subst out_absent out_present. unfold serve. cbn [route request].
  assert (Hc : exists h, In h [getPivtokenPin; deletePivtoken; recoveryPivtoken]
                         /\ route_chain [] name = [preloadPivtoken; signatureAuth; h]).
  { simpl in Hname. destruct Hname as [<-|[<-|[<-|[]]]]; eexists; split;
      try reflexivity; simpl; auto. }
  destruct Hc as [h [Hh ->]].
  rewrite (authenticated_absent h env_absent p_absent hdrs_absent name
             guid_absent err) by assumption.
  rewrite (authenticated_rejected h env_present p_present hdrs_present name
             guid_present token) by assumption.
  repeat split.
Qed.

Lemma auth_failure_as_not_found_witness :
  let name := "deltoken" in
  let p := [("guid", JStr "97496DD1C8F053DE7450CD854D9C95B4")] in
  let lookup := PivtokenGetPin [("guid", JStr "97496DD1C8F053DE7450CD854D9C95B4")] in
  let out_absent := run (@serve toy_verifier (request name p [])) empty_store in
  let out_present :=
    run (@serve toy_verifier (request name p [("signature", JStr "forged")]))
      store1 in
  response (fst out_absent) = Some not_found
  /\ response (fst out_present) = Some not_found
  /\ response (fst out_absent) = response (fst out_present)
  /\ snd out_absent = [lookup]
  /\ snd out_present = [lookup].
Proof.
  apply (@auth_failure_as_not_found toy_verifier empty_store store1 "deltoken"
           [("guid", JStr "97496DD1C8F053DE7450CD854D9C95B4")]
           [("guid", JStr "97496DD1C8F053DE7450CD854D9C95B4")]
           [] [("signature", JStr "forged")]
           (JStr "97496DD1C8F053DE7450CD854D9C95B4")
           (JStr "97496DD1C8F053DE7450CD854D9C95B4")
           (ResourceNotFoundError "pivtoken not found")
           {| serialize := token1; raw := token1 |}).
  - simpl. auto.
  - reflexivity.
  - reflexivity.
  - reflexivity.
  - reflexivity.
  - reflexivity.
  - reflexivity.
Defined.

Lemma recoveryPivtoken_recovers (env : Env) req res t tk token g new :
  pivtoken req = Some tk -> rawToken req = Some token ->
  prop token "guid" = JStr g ->
  env t (PivtokenHistoryCreate (JObj token)) = None ->
  env (t ++ [PivtokenHistoryCreate (JObj token)]) (PivtokenDel (JObj token))
    = None ->
  env (t ++ [PivtokenHistoryCreate (JObj token); PivtokenDel (JObj token)])
      (PivtokenCreate (prop (params req) "token")) = inr new ->
  recoveryPivtoken req res env t
  = ((req, res_send 201 (JObj (serialize new)) res, Continue),
     t ++ [PivtokenHistoryCreate (JObj token); PivtokenDel (JObj token);
           PivtokenCreate (prop (params req) "token")]).
Proof.
  intros Hp Hr Hguid Ha Hd Hc.
  pose proof (archiveAndDeletePivtoken_archived env token g Hguid t Ha) as H.
  cbv zeta in H. rewrite <- app_assoc in H.
  unfold recoveryPivtoken. rewrite Hp, Hr. bind_m. rewrite H. cbv iota beta.
  rewrite Hd. cbv [mbind mret M_bind M_ret call]. cbn [app]. rewrite Hc.
  now rewrite <- app_assoc.
Qed.

Example recover_with_secret :
  run (@serve toy_verifier
         (request "recoverytoken" recover_params
            [("hmac", JStr "cefb9c2001b535b697d5a13ba6855098")])) store1
  = ((preloaded (request "recoverytoken" recover_params
                   [("hmac", JStr "cefb9c2001b535b697d5a13ba6855098")])
        {| serialize := token1; raw := token1 |},
      res_send 201 (JObj (del "pin" token2)) empty_res, Continue),
     [PivtokenGetPin [("guid", JStr "97496DD1C8F053DE7450CD854D9C95B4")];
      PivtokenHistoryCreate (JObj token1); PivtokenDel (JObj token1);
      PivtokenCreate (JObj token2)]).
Proof. reflexivity. Qed.

Example recover_with_signature_only :
  response (fst (run (@serve toy_verifier
                        (request "recoverytoken" recover_params
                           [("signature", JStr "ecdsa-sha2-nistp256 AAAA")]))
                   store1))
  = Some not_found.
Proof. reflexivity. Qed.

(** C8: the recover route runs pre-loading, authentication and
    [recoveryPivtoken]; its authentication is the HMAC check against the
    stored [recovery_token], whatever the signature check says, and no other
    route uses that check.  When the check passes, the old token is archived,
    then deleted, the token of the request body is created, and the answer is
    201 with the new token's serialization; when it fails the answer is "not
    found" and nothing is written. *)
Theorem recover_route `{V : Verifier}
    (env : Env) (p hdrs : Obj) (guid : JsVal) (old new : Model) (g : string) :
  preload_guid p = Ok guid ->
  env [] (PivtokenGetPin [("guid", guid)]) = inr old ->
  prop (raw old) "guid" = JStr g ->
  let lookup := PivtokenGetPin [("guid", guid)] in
  let archive := PivtokenHistoryCreate (JObj (raw old)) in
  let remove := PivtokenDel (JObj (raw old)) in
  let create := PivtokenCreate (prop p "token") in
  let out := run (serve (request "recoverytoken" p hdrs)) env in
  route_chain [] "recoverytoken"
    = [preloadPivtoken; signatureAuth; recoveryPivtoken]
  /\ (forall name, scheme_of_route name = HmacScheme <-> name = "recoverytoken")
  /\ verified "recoverytoken" (raw old) hdrs
     = verify_hmac (prop (raw old) "recovery_token") hdrs
  /\ (verify_hmac (prop (raw old) "recovery_token") hdrs = false ->
      response (fst out) = Some not_found /\ snd out = [lookup])
  /\ (verify_hmac (prop (raw old) "recovery_token") hdrs = true ->
      env [lookup] archive = None ->
      env [lookup; archive] remove = None ->
      env [lookup; archive; remove] create = inr new ->
      out = ((preloaded (request "recoverytoken" p hdrs) old,
              res_send 201 (JObj (serialize new)) empty_res, Continue),
             [lookup; archive; remove; create])
      /\ response (fst out)
         = Some {| status := 201; body := JObj (serialize new);
                   resp_headers := [] |}).
Proof.
  intros Hg He Hguid lookup archive remove create out.
  subst lookup archive remove create out.
  split; [reflexivity|]. split.
  { intros name. unfold scheme_of_route.
    destruct (String.eqb name "recoverytoken") eqn:E.
    - apply String.eqb_eq in E. tauto.
    - split; [discriminate|]. intros ->. discriminate. }
  split; [reflexivity|].
  unfold serve. cbn [route request]. rewrite route_chain_recover. split.
  - intros Hv.
    rewrite (authenticated_rejected recoveryPivtoken env p hdrs "recoverytoken"
               guid old) by assumption.
    split; reflexivity.
  - intros Hv Ha Hd Hc. unfold run.
    rewrite run_chain_cons,
      (preloadPivtoken_found env (request "recoverytoken" p hdrs) guid Hg _ _ old)
      by assumption.
    rewrite run_chain_cons, (signatureAuth_accepted _ _ _ _ (raw old))
      by (reflexivity || assumption).
    rewrite run_chain_cons.
    rewrite (recoveryPivtoken_recovers env _ empty_res _ (serialize old)
               (raw old) g new) by (reflexivity || assumption).
    split; reflexivity.
Qed.

Lemma recover_route_witness :
  let p := recover_params in
  let hdrs := [("hmac", JStr "cefb9c2001b535b697d5a13ba6855098")] in
  let old := {| serialize := token1; raw := token1 |} in
  let new := {| serialize := del "pin" token2; raw := token2 |} in
  let lookup := PivtokenGetPin [("guid", JStr "97496DD1C8F053DE7450CD854D9C95B4")] in
  let archive := PivtokenHistoryCreate (JObj (raw old)) in
  let remove := PivtokenDel (JObj (raw old)) in
  let create := PivtokenCreate (prop p "token") in
  let out := run (@serve toy_verifier (request "recoverytoken" p hdrs)) store1 in
  @route_chain toy_verifier [] "recoverytoken"
    = [preloadPivtoken; @signatureAuth toy_verifier; recoveryPivtoken]
  /\ (forall name, scheme_of_route name = HmacScheme <-> name = "recoverytoken")
  /\ @verified toy_verifier "recoverytoken" (raw old) hdrs
     = @verify_hmac toy_verifier (prop (raw old) "recovery_token") hdrs
  /\ (@verify_hmac toy_verifier (prop (raw old) "recovery_token") hdrs = false ->
      response (fst out) = Some not_found /\ snd out = [lookup])
  /\ (@verify_hmac toy_verifier (prop (raw old) "recovery_token") hdrs = true ->
      store1 [lookup] archive = None ->
      store1 [lookup; archive] remove = None ->
      store1 [lookup; archive; remove] create = inr new ->
      out = ((preloaded (request "recoverytoken" p hdrs) old,
              res_send 201 (JObj (serialize new)) empty_res, Continue),
             [lookup; archive; remove; create])
      /\ response (fst out)
         = Some {| status := 201; body := JObj (serialize new);
                   resp_headers := [] |}).
Proof.
  apply (@recover_route toy_verifier store1 recover_params
           [("hmac", JStr "cefb9c2001b535b697d5a13ba6855098")]
           (JStr "97496DD1C8F053DE7450CD854D9C95B4")
           {| serialize := token1; raw := token1 |}
           {| serialize := del "pin" token2; raw := token2 |}
           "97496DD1C8F053DE7450CD854D9C95B4");
    reflexivity.
Defined.

End PivtokensRoutes.

(** ** Bucket initialisation (moray.js) *)

Module MorayInit.
Import Js World Moray JsFacts Views Samples TraceFacts.

Example initBucket_fresh :
  run (initBucket "" tokens_bucket) empty_store
  = (((None, JUndefined), tokens_bucket),
     [GetBucket "kbmapi_pivtokens"; Log LInfo "initBucket: creating bucket";
      CreateBucket "kbmapi_pivtokens"
        {| index := [("guid", JObj [("type", JStr "string")])];
           fields := [("options", JObj [("version", JNum 2)])] |};
      Log LInfo "initBucket: successfully created bucket kbmapi_pivtokens"]).
Proof. reflexivity. Qed.

Example initBucket_again :
  run (initBucket "test_" tokens_bucket) all_buckets
  = (((None, JUndefined),
      {| desc := "pivtoken"; name := "test_kbmapi_pivtokens";
         schema := schema tokens_bucket; version := Some (JNum 2);
         name_prefixed := true |}),
     [Log LWarn "initBucket: bucket prefix set: overriding name";
      GetBucket "test_kbmapi_pivtokens"; Log LDebug "bucket exists"]).
Proof. reflexivity. Qed.

Lemma initBucket_prefix BUCKET_PFX bucket env :
  run (initBucket BUCKET_PFX bucket) env
  = let name1 := effective_name BUCKET_PFX bucket in
    let bucket1 := effective_bucket BUCKET_PFX bucket in
    let t1 := prefix_warning BUCKET_PFX bucket in
    match env t1 (GetBucket name1) with
    | inr _ =>
        (((None, JUndefined), bucket1),
         t1 ++ [GetBucket name1; Log LDebug "bucket exists"])
    | inl err =>
        if hasCauseWithName err "BucketNotFoundError" then
          let t2 := t1 ++ [GetBucket name1;
                           Log LInfo "initBucket: creating bucket"] in
          let create := CreateBucket name1 (creation_schema bucket) in
          ((env t2 create, bucket1),
           t2 ++ [create;
                  match fst (env t2 create) with
                  | Some _ =>
                      Log LError ("initBucket: error creating bucket " +:+ name1)
                  | None =>
                      Log LInfo
                        ("initBucket: successfully created bucket " +:+ name1)
                  end])
        else
          (((Some err, JUndefined), bucket1),
           t1 ++ [GetBucket name1;
                  Log LError ("initBucket: error getting bucket " +:+ name1)])
    end.
Proof.
  unfold initBucket, effective_name, effective_bucket, prefix_warning,
    creation_schema.
  fold (prefixing BUCKET_PFX bucket).
  destruct (prefixing BUCKET_PFX bucket);
    cbv [run mbind mret M_bind M_ret call]; cbn [app version name];
    match goal with |- context [env ?t (GetBucket ?n)] =>
      destruct (env t (GetBucket n)) as [err|prev] end;
    try reflexivity;
    destruct (hasCauseWithName err "BucketNotFoundError"); try reflexivity;
    cbn [app];
    match goal with |- context [env ?t (CreateBucket ?n ?s)] =>
      destruct (env t (CreateBucket n s)) as [[e2|] r] end;
    reflexivity.
Qed.

(** C6: when the bucket exists the callback gets no error and no bucket is
    created; when the lookup fails with a [BucketNotFoundError] cause, the
    bucket is created under the same name with the schema, whose [options] are
    [{ version }] when the configuration declares a version (index and other
    fields as they were), and the callback gets what the creation gave, error
    included; any other lookup error goes to the callback and nothing is
    created. *)
Theorem initBucket_ensures (env : Env) (BUCKET_PFX : string) (bucket : Bucket) :
  let name1 := effective_name BUCKET_PFX bucket in
  let bucket1 := effective_bucket BUCKET_PFX bucket in
  let t1 := prefix_warning BUCKET_PFX bucket in
  let schema1 := creation_schema bucket in
  let out := run (initBucket BUCKET_PFX bucket) env in
  (forall prev, env t1 (GetBucket name1) = inr prev ->
     fst out = ((None, JUndefined), bucket1)
     /\ buckets_created (snd out) = []
     /\ snd out = t1 ++ [GetBucket name1; Log LDebug "bucket exists"])
  /\ (forall err, env t1 (GetBucket name1) = inl err ->
        hasCauseWithName err "BucketNotFoundError" = true ->
        fst out
        = (env (t1 ++ [GetBucket name1; Log LInfo "initBucket: creating bucket"])
             (CreateBucket name1 schema1), bucket1)
        /\ buckets_created (snd out) = [(name1, schema1)])
  /\ (forall err, env t1 (GetBucket name1) = inl err ->
        hasCauseWithName err "BucketNotFoundError" = false ->
        fst out = ((Some err, JUndefined), bucket1)
        /\ buckets_created (snd out) = [])
  /\ (forall v, version bucket = Some v ->
        index schema1 = index (schema bucket)
        /\ get "options" (fields schema1) = Some (JObj [("version", v)])
        /\ forall k, k <> "options" ->
             get k (fields schema1) = get k (fields (schema bucket)))
  /\ (version bucket = None -> schema1 = schema bucket).
Proof.
  intros name1 bucket1 t1 schema1 out.
  assert (Hw : buckets_created t1 = []).
  { unfold t1, prefix_warning. now destruct (prefixing _ _). }
  subst out. rewrite initBucket_prefix. cbv zeta.
  fold name1 bucket1 t1 schema1.
  split; [|split; [|split; [|split]]].
  - intros prev ->. cbn [fst snd]. repeat split.
    unfold buckets_created in *. rewrite omap_app, Hw. reflexivity.
  - intros err -> ->. cbn [fst snd]. split; [reflexivity|].
    unfold buckets_created in *. rewrite !omap_app, Hw.
    cbn. now destruct (fst _).
  - intros err -> ->. cbn [fst snd]. split; [reflexivity|].
    unfold buckets_created in *. rewrite omap_app, Hw. reflexivity.
  - intros v Hv. unfold schema1, creation_schema. rewrite Hv.
    unfold with_version. cbn [index fields]. split; [reflexivity|]. split.
    + apply get_set_eq.
    + intros k Hk. now apply get_set_ne.
  - intros Hv. unfold schema1, creation_schema. now rewrite Hv.
Qed.

Lemma initBucket_ensures_witness :
  let env := all_buckets in
  let name1 := effective_name "test_" tokens_bucket in
  let bucket1 := effective_bucket "test_" tokens_bucket in
  let t1 := prefix_warning "test_" tokens_bucket in
  let schema1 := creation_schema tokens_bucket in
  let out := run (initBucket "test_" tokens_bucket) env in
  (forall prev, env t1 (GetBucket name1) = inr prev ->
     fst out = ((None, JUndefined), bucket1)
     /\ buckets_created (snd out) = []
     /\ snd out = t1 ++ [GetBucket name1; Log LDebug "bucket exists"])
  /\ (forall err, env t1 (GetBucket name1) = inl err ->
        hasCauseWithName err "BucketNotFoundError" = true ->
        fst out
        = (env (t1 ++ [GetBucket name1; Log LInfo "initBucket: creating bucket"])
             (CreateBucket name1 schema1), bucket1)
        /\ buckets_created (snd out) = [(name1, schema1)])
  /\ (forall err, env t1 (GetBucket name1) = inl err ->
        hasCauseWithName err "BucketNotFoundError" = false ->
        fst out = ((Some err, JUndefined), bucket1)
        /\ buckets_created (snd out) = [])
  /\ (forall v, version tokens_bucket = Some v ->
        index schema1 = index (schema tokens_bucket)
        /\ get "options" (fields schema1) = Some (JObj [("version", v)])
        /\ forall k, k <> "options" ->
             get k (fields schema1) = get k (fields (schema tokens_bucket)))
  /\ (version tokens_bucket = None -> schema1 = schema tokens_bucket).
Proof.
  apply (initBucket_ensures all_buckets "test_" tokens_bucket).
Defined.

End MorayInit.

(** ** Transitions (recovery-configurations.js) *)

Module RecoveryTransitions.
Import Js World Http RecoveryConfigurations JsFacts Views Samples TraceFacts.

Example put_activate :
  response (fst (run (run_chain (put_chain []) (put_request put_params) empty_res)
                   transition_starts))
  = Some {| status := 204; body := JUndefined;
            resp_headers :=
              [("Location",
                "/recovery-configurations/f85b894e-f9f5-4e63-a0be-0e5b0c1c5b1f?action=watch&transition=activate")] |}.
Proof. reflexivity. Qed.

Example put_activate_calls :
  snd (run (run_chain (put_chain []) (put_request put_params) empty_res)
         transition_starts)
  = [RecoveryConfigurationGet [("uuid", JStr "f85b894e-f9f5-4e63-a0be-0e5b0c1c5b1f")];
     Transition (JStr "activate")
       [("uuid", JStr "f85b894e-f9f5-4e63-a0be-0e5b0c1c5b1f");
        ("concurrency", JNum 2)]].
Proof. reflexivity. Qed.

Example put_activate_failed :
  response (fst (run (run_chain (put_chain []) (put_request put_params) empty_res)
                   transition_fails))
  = Some {| status := 200; body := JUndefined;
            resp_headers :=
              [("Location",
                "/recovery-configurations/f85b894e-f9f5-4e63-a0be-0e5b0c1c5b1f?action=watch&transition=activate")] |}.
Proof. reflexivity. Qed.

Lemma updateRecoveryConfiguration_transition (env : Env) req res t cfg :
  recoveryConfig req = Some cfg ->
  truthy (prop (params req) "action") = true ->
  let start := Transition (prop (params req) "action")
                 (transition_params (params req)) in
  exists req',
    updateRecoveryConfiguration req res env t
    = (match env t start with
       | (Some e, None) => (req', res, Fail e)
       | (None, None) =>
           (req', res,
            Threw "TypeError: Cannot read property 'transition' of undefined")
       | (trErr, Some r) =>
           (req',
            res_send (match trErr with Some _ => 200 | None => 204 end)
              JUndefined
              (if truthy (transition_name r) then
                 res_header "Location"
                   (watch_location (prop (params req) "uuid")
                      (transition_name r)) res
               else res),
            Continue)
       end, t ++ [start]).
Proof.
  intros Hc Ha start. eexists.
  unfold updateRecoveryConfiguration. rewrite Hc, Ha. cbn [negb].
  cbv [mbind mret M_bind M_ret call].
  fold (transition_params (params req)). fold start.
  assert (Hu : prop (set_if (prop (params req) "cn_uuid") "targets"
                       (JArr [prop (params req) "cn_uuid"]) (params req)) "uuid"
               = prop (params req) "uuid").
  { unfold set_if. destruct (truthy (prop (params req) "cn_uuid"));
      [|reflexivity].
    unfold prop. rewrite get_set_ne; [reflexivity|discriminate]. }
  rewrite Hu.
  destruct (env t start) as [[e|] [r|]]; reflexivity.
Qed.

Lemma preloadRecoveryConfiguration_found (env : Env) req res t cfg :
  truthy (prop (params req) "uuid") = true ->
  env t (RecoveryConfigurationGet [("uuid", prop (params req) "uuid")]) = inr cfg ->
  preloadRecoveryConfiguration req res env t
  = (({| route := route req; params := params req; headers := headers req;
         pivtoken := pivtoken req; rawToken := rawToken req;
         recoveryConfig := Some (serialize cfg) |}, res, Continue),
     t ++ [RecoveryConfigurationGet [("uuid", prop (params req) "uuid")]]).
Proof.
  intros Hu He. unfold preloadRecoveryConfiguration. rewrite Hu. cbn [negb].
  cbv [mbind mret M_bind M_ret call]. now rewrite He.
Qed.

(** C7: a PUT on an existing configuration with an action starts the
    transition; when the transition calls back with a result and no error the
    answer is 204, when it calls back with a result and an error the answer
    is 200.  In both cases, when the result holds a transition record whose
    [name] is truthy, the [Location] header is
    [/recovery-configurations/<uuid>?action=watch&transition=<name>], with
    the uuid of the request and the name of the record; when it holds no
    record, or a record without a truthy name, no header is set. *)
Theorem put_starts_transition
    (env : Env) (p : Obj) (cfg : Model) (trErr : option Err) (r : TrRes) :
  truthy (prop p "uuid") = true ->
  truthy (prop p "action") = true ->
  let lookup := RecoveryConfigurationGet [("uuid", prop p "uuid")] in
  let start := Transition (prop p "action") (transition_params p) in
  env [] lookup = inr cfg ->
  env [lookup] start = (trErr, Some r) ->
  let out := run (run_chain (put_chain []) (put_request p) empty_res) env in
  let location :=
    match transition r with
    | Some record =>
        match get "name" (raw record) with
        | Some name =>
            if truthy name then
              [("Location",
                "/recovery-configurations/" +:+ to_string (prop p "uuid")
                  +:+ "?action=watch&transition=" +:+ to_string name)]
            else []
        | None => []
        end
    | None => []
    end in
  snd out = [lookup; start]
  /\ (trErr = None ->
      response (fst out)
      = Some {| status := 204; body := JUndefined; resp_headers := location |})
  /\ (forall e, trErr = Some e ->
      response (fst out)
      = Some {| status := 200; body := JUndefined; resp_headers := location |}).
Proof.
  intros Hu Ha lookup start Hl Hs out location. subst out. unfold run.
  change (put_chain [])
    with [preloadRecoveryConfiguration; updateRecoveryConfiguration].
  rewrite run_chain_cons.
  rewrite (preloadRecoveryConfiguration_found env (put_request p) empty_res [] cfg)
    by assumption.
  cbn [app]. rewrite run_chain_cons.
  match goal with |- context [updateRecoveryConfiguration ?q empty_res env ?t] =>
    destruct (updateRecoveryConfiguration_transition env q empty_res t
                (serialize cfg) eq_refl Ha) as [req' Hupd] end.
  cbv zeta in Hupd. cbn [params put_request] in Hupd |- *.
  fold lookup start in Hupd |- *. rewrite Hupd, Hs.
  subst location. unfold watch_location, transition_name, prop.
  destruct (transition r) as [record|];
    [destruct (get "name" (raw record)) as [name|];
       [destruct (truthy name)|]|];
    cbn [truthy];
    destruct trErr as [e0|];
    (split; [reflexivity|]; split;
     [intros H; try discriminate H; reflexivity
     |intros e H; try discriminate H; reflexivity]).
Qed.

Lemma put_starts_transition_witness :
  let env := transition_fails in
  let p := put_params in
  let r := transition1 in
  let trErr := Some (InternalError "target timed out") in
  let lookup := RecoveryConfigurationGet [("uuid", prop p "uuid")] in
  let start := Transition (prop p "action") (transition_params p) in
  let out := run (run_chain (put_chain []) (put_request p) empty_res) env in
  let location :=
    [("Location",
      "/recovery-configurations/f85b894e-f9f5-4e63-a0be-0e5b0c1c5b1f?action=watch&transition=activate")] in
  snd out = [lookup; start]
  /\ (trErr = None ->
      response (fst out)
      = Some {| status := 204; body := JUndefined; resp_headers := location |})
  /\ (forall e, trErr = Some e ->
      response (fst out)
      = Some {| status := 200; body := JUndefined; resp_headers := location |}).
Proof.
  apply (put_starts_transition transition_fails put_params config1
           (Some (InternalError "target timed out"))
           transition1); reflexivity.
Defined.

End RecoveryTransitions.

(** ** Updating an object (moray.js) *)

Module MorayUpdate.
Import Js World Moray JsFacts Views Samples TraceFacts.

Lemma get_merge_keys v remove ks : forall w k,
  get k (fold_left (merge_key v remove) ks w)
  = if existsb (String.eqb k) ks
    then (if remove then None else Some (prop v k))
    else get k w.
Proof.
  induction ks as [|k0 ks IH]; intros w k; cbn [fold_left existsb]; auto.
  rewrite IH. destruct (existsb (String.eqb k) ks) eqn:E.
  - now rewrite orb_true_r.
  - rewrite orb_false_r. unfold merge_key.
    destruct (String.eqb k k0) eqn:E0.
    + apply String.eqb_eq in E0. subst k0.
      destruct remove; [apply get_del_eq|apply get_set_eq].
    + assert (k0 <> k) by (intros ->; rewrite String.eqb_refl in E0; discriminate).
      destruct remove; [now apply get_del_ne|now apply get_set_ne].
Qed.

Lemma existsb_keys k (v : Obj) :
  existsb (String.eqb k) (keys v) = match get k v with Some _ => true | None => false end.
Proof.
  induction v as [|[k0 x] v IH]; simpl; auto.
  destruct (String.eqb k k0); auto.
Qed.

(** Exactly the keys of [v] are overwritten, or deleted; the rest is [o]'s. *)
Lemma get_merged o v remove k :
  get k (merged o v remove)
  = match get k v with
    | Some x => if remove then None else Some x
    | None => get k o
    end.
Proof.
  unfold merged. rewrite get_merge_keys, existsb_keys. unfold prop.
  destruct (get k v); reflexivity.
Qed.

Section Update.
Variable opts : UpdateOpts.
Variable h : Heap.
Variables o v : Obj.
Hypothesis Horiginal : h !! u_original opts = Some o.
Hypothesis Hval : h !! u_val opts = Some v.

Let value : nat := fresh (dom h).
Let remove : bool := default false (u_remove opts).

Lemma value_fresh : h !! value = None.
Proof. apply not_elem_of_dom, is_fresh. Qed.

Lemma value_not_original : value <> u_original opts.
Proof. intros E. pose proof value_fresh as H. rewrite E, Horiginal in H. discriminate. Qed.

Lemma value_not_val : value <> u_val opts.
Proof. intros E. pose proof value_fresh as H. rewrite E, Hval in H. discriminate. Qed.

(** The loop only writes the copy. *)
Lemma update_keys ks : forall w,
  fold_left (update_key opts value) ks (<[value := w]> h)
  = <[value := fold_left (merge_key v remove) ks w]> h.
Proof.
  induction ks as [|k ks IH]; intros w; cbn [fold_left]; auto.
  unfold update_key at 2. fold remove. unfold cell.
  rewrite lookup_insert_eq, lookup_insert_ne by apply value_not_val.
  rewrite Hval. cbn [from_option id]. unfold merge_key at 2.
  destruct remove; rewrite insert_insert_eq; apply IH.
Qed.

Lemma updateObj_run (env : Env) t0 :
  let written := merged o v remove in
  let put := PutObject (name (u_bucket opts)) (u_key opts) written (u_etag opts) in
  updateObj opts h env t0
  = (match env t0 put with
     | inl pErr => (inl pErr, <[value := written]> h)
     | inr info =>
         (inr value, <[value := set "etag" (prop info "etag") written]> h)
     end, t0 ++ [put]).
Proof.
  intros written put. unfold updateObj, deepCopy. fold value.
  unfold cell. rewrite Horiginal. cbn [from_option id].
  rewrite lookup_insert_ne by apply value_not_val.
  rewrite Hval. cbn [from_option id]. rewrite update_keys.
  fold (merged o v remove). fold written.
  rewrite lookup_insert_eq. cbn [from_option id].
  cbv [mbind mret M_bind M_ret call]. fold put.
  destruct (env t0 put); [reflexivity|].
  now rewrite insert_insert_eq.
Qed.

End Update.

Example updateObj_put :
  snd (run (updateObj opts1 heap1) empty_store)
  = [PutObject "kbmapi_pivtokens" "97496DD1C8F053DE7450CD854D9C95B4"
       [("guid", JStr "97496DD1C8F053DE7450CD854D9C95B4");
        ("etag", JStr "0000000A");
        ("cn_uuid", JStr "15966912-8fad-41cd-bd82-abe6468354b5")]
       "0000000A"].
Proof. vm_compute. reflexivity. Qed.

Example updateObj_returned :
  let '(r, h') := fst (run (updateObj opts1 heap1) empty_store) in
  r = inr 2%nat
  /\ h' !! 2%nat
     = Some [("guid", JStr "97496DD1C8F053DE7450CD854D9C95B4");
             ("etag", JStr "00000001");
             ("cn_uuid", JStr "15966912-8fad-41cd-bd82-abe6468354b5")]
  /\ h' !! 0%nat = heap1 !! 0%nat.
Proof. vm_compute. auto. Qed.

(** C10, as stated, fails: the new tag is known only once the store has
    answered, so the value that was put still has the old [etag]. *)
Lemma written_value_lacks_new_etag :
  ~ written_has_new_etag empty_store opts1 heap1.
Proof.
  intros H.
  specialize (H "kbmapi_pivtokens" "97496DD1C8F053DE7450CD854D9C95B4"
                [("guid", JStr "97496DD1C8F053DE7450CD854D9C95B4");
                 ("etag", JStr "0000000A");
                 ("cn_uuid", JStr "15966912-8fad-41cd-bd82-abe6468354b5")]
                "0000000A" [("etag", JStr "00000001")]).
  assert (E : get "etag"
                [("guid", JStr "97496DD1C8F053DE7450CD854D9C95B4");
                 ("etag", JStr "0000000A");
                 ("cn_uuid", JStr "15966912-8fad-41cd-bd82-abe6468354b5")]
              = Some (prop [("etag", JStr "00000001")] "etag")).
  { apply H; [exact updateObj_put|reflexivity]. }
  discriminate E.
Qed.

(** C10 (amended): the value put into the store is a copy of
    [opts.original] in which exactly the keys of [opts.val] are overwritten
    with [opts.val]'s values, or deleted when [opts.remove] is set, every
    other field being the original's; the value handed to the callback of a
    successful call is that value with its [etag] field set to the new tag;
    it is a new object, and [opts.original] (like every object that existed
    before the call) is left as it was, also when the put fails. *)
Theorem updateObj_writes_merged
    (env : Env) (opts : UpdateOpts) (h : Heap) (o v : Obj) (t0 : list Call) :
  h !! u_original opts = Some o ->
  h !! u_val opts = Some v ->
  let remove := default false (u_remove opts) in
  let value := fresh (dom h) in
  let written := merged o v remove in
  let put := PutObject (name (u_bucket opts)) (u_key opts) written (u_etag opts) in
  snd (updateObj opts h env t0) = t0 ++ [put]
  /\ (forall k,
        get k written
        = match get k v with
          | Some x => if remove then None else Some x
          | None => get k o
          end)
  /\ (forall info, env t0 put = inr info ->
        exists h',
          fst (updateObj opts h env t0) = (inr value, h')
          /\ h' !! value = Some (set "etag" (prop info "etag") written)
          /\ (forall k, k <> "etag" ->
                get k (set "etag" (prop info "etag") written) = get k written)
          /\ value <> u_original opts
          /\ h' !! u_original opts = Some o
          /\ forall l, l <> value -> h' !! l = h !! l)
  /\ (forall pErr, env t0 put = inl pErr ->
        exists h',
          fst (updateObj opts h env t0) = (inl pErr, h')
          /\ h' !! u_original opts = Some o).
Proof.
  intros Ho Hv remove value written put.
  pose proof (updateObj_run opts h o v Ho Hv env t0) as H. cbv zeta in H.
  fold remove value written put in H. rewrite H. cbn [fst snd].
  assert (Hne : value <> u_original opts) by exact (value_not_original opts h o Ho).
  split; [reflexivity|]. split; [intros k; apply get_merged|]. split.
  - intros info ->. eexists. split; [reflexivity|].
    split; [apply lookup_insert_eq|]. split.
    { intros k Hk. apply get_set_ne. congruence. }
    split; [exact Hne|]. split.
    + now rewrite lookup_insert_ne.
    + intros l Hl. now rewrite lookup_insert_ne.
  - intros pErr ->. eexists. split; [reflexivity|].
    now rewrite lookup_insert_ne.
Qed.

Lemma updateObj_writes_merged_witness :
  let env := empty_store in
  let opts := opts1 in
  let h := heap1 in
  let o := [("guid", JStr "97496DD1C8F053DE7450CD854D9C95B4");
            ("etag", JStr "0000000A")] in
  let v := [("cn_uuid", JStr "15966912-8fad-41cd-bd82-abe6468354b5")] in
  let t0 := [] in
  let remove := default false (u_remove opts) in
  let value := fresh (dom h) in
  let written := merged o v remove in
  let put := PutObject (name (u_bucket opts)) (u_key opts) written (u_etag opts) in
  snd (updateObj opts h env t0) = t0 ++ [put]
  /\ (forall k,
        get k written
        = match get k v with
          | Some x => if remove then None else Some x
          | None => get k o
          end)
  /\ (forall info, env t0 put = inr info ->
        exists h',
          fst (updateObj opts h env t0) = (inr value, h')
          /\ h' !! value = Some (set "etag" (prop info "etag") written)
          /\ (forall k, k <> "etag" ->
                get k (set "etag" (prop info "etag") written) = get k written)
          /\ value <> u_original opts
          /\ h' !! u_original opts = Some o
          /\ forall l, l <> value -> h' !! l = h !! l)
  /\ (forall pErr, env t0 put = inl pErr ->
        exists h',
          fst (updateObj opts h env t0) = (inl pErr, h')
          /\ h' !! u_original opts = Some o).
Proof.
  apply (updateObj_writes_merged empty_store opts1 heap1
           [("guid", JStr "97496DD1C8F053DE7450CD854D9C95B4");
            ("etag", JStr "0000000A")]
           [("cn_uuid", JStr "15966912-8fad-41cd-bd82-abe6468354b5")] []);
    reflexivity.
Defined.

End MorayUpdate.

(** ** Objects in Moray: delObj, getObj, putObj, listObjs (moray.js) *)

Module MorayObjectsFacts.
Import Js World Moray MorayObjects Views ObjectViews JsFacts.

Ltac step_s := repeat progress (cbv [exec mbind mret S_bind S_ret op]; cbn).

Example listObjs_two :
  exec (listObjs constants1 (list_all (JObj [("pin", JStr "1234")]))) two_records
  = (Ok (inr [inr (with_etag rec1); inr (with_etag rec2)]),
     [Debug ("LDAP filter: " +:+ quoted "(guid=*)");
      FindObjects "kbmapi_pivtokens" (JStr "(guid=*)")
        [("limit", JNum 1000); ("offset", JNum 0)];
      Debug "record from moray"; Debug "record from moray"]).
Proof. reflexivity. Qed.

Example delObj_missing :
  exec (delObj {| d_bucket := Samples.pivtokens_bucket; d_key := "G9";
                  d_etag := Some "" |}) no_objects
  = (Some {| names := ["ResourceNotFoundError"; "ObjectNotFoundError"];
             statusCode := Some 404; restCode := "ResourceNotFound";
             message := "pivtoken not found" |},
     [DelObject "kbmapi_pivtokens" "G9" []]).
Proof. reflexivity. Qed.



(** X2: [delObj] makes its delete conditional only on a non-empty etag:
    without an etag, and with the empty string as etag, the request carries
    no etag at all. *)
Theorem delObj_etag_optional
    (client : Client) (bucket : Bucket) (key : string) (t : list Op) (e : string) :
  e <> "" ->
  let requests etag :=
    snd (delObj {| d_bucket := bucket; d_key := key; d_etag := etag |} client t) in
  requests (Some e) = t ++ [DelObject (name bucket) key [("etag", JStr e)]]
  /\ requests None = t ++ [DelObject (name bucket) key []]
  /\ requests (Some "") = requests None.
Proof.
  intros He requests. subst requests. cbv beta.
  unfold delObj, del_morayOpts. cbv [mbind mret S_bind S_ret op].
  cbn [d_bucket d_key d_etag truthy].
  destruct (String.eqb e "") eqn:E.
  { apply String.eqb_eq in E. contradiction. }
  cbn [negb String.eqb].
  repeat split;
    match goal with |- context [client ?t ?o] => destruct (client t o) as [x|] end;
    try destruct (hasCauseWithName x _); reflexivity.
Qed.

Lemma delObj_etag_optional_witness :
  let requests etag :=
    snd (delObj {| d_bucket := Samples.pivtokens_bucket; d_key := "G1";
                   d_etag := etag |} two_records []) in
  requests (Some "0A")
  = [] ++ [DelObject (name Samples.pivtokens_bucket) "G1" [("etag", JStr "0A")]]
  /\ requests None = [] ++ [DelObject (name Samples.pivtokens_bucket) "G1" []]
  /\ requests (Some "") = requests None.
Proof.
  apply (delObj_etag_optional two_records Samples.pivtokens_bucket "G1" [] "0A").
  discriminate.
Defined.

(** X3: after a successful [putObj] the object carries the etag the store
    returned, so that the next [putObj] of that object is conditional on it;
    key and raw value are the same in both requests.  A failed put gives the
    error alone and asks for nothing else. *)
Theorem putObj_carries_etag
    (client : Client) (bucket : Bucket) (obj : Instance) :
  let put1 := PutObjectAt (name bucket) (i_key obj) (i_raw obj) (i_etag obj) in
  (forall err, client [] put1 = inl err ->
     exec (putObj bucket obj) client = (inl err, [put1])
     /\ exec (put_twice bucket obj) client = (inl err, [put1]))
  /\ (forall res1, client [] put1 = inr res1 ->
       let put2 := PutObjectAt (name bucket) (i_key obj) (i_raw obj)
                     (prop res1 "etag") in
       exec (putObj bucket obj) client
       = (inr {| i_key := i_key obj; i_raw := i_raw obj;
                 i_etag := prop res1 "etag" |}, [put1])
       /\ puts (snd (exec (put_twice bucket obj) client))
          = [(name bucket, i_key obj, i_raw obj, i_etag obj);
             (name bucket, i_key obj, i_raw obj, prop res1 "etag")]
       /\ fst (exec (put_twice bucket obj) client)
          = match client [put1] put2 with
            | inl err => inl err
            | inr res2 => inr {| i_key := i_key obj; i_raw := i_raw obj;
                                 i_etag := prop res2 "etag" |}
            end).
Proof.
  intros put1. split.
  - intros err H. unfold put_twice, putObj, exec.
    cbv [mbind mret S_bind S_ret op]. cbn [app]. fold put1. now rewrite H.
  - intros res1 H put2. unfold put_twice, putObj, exec.
    cbv [mbind mret S_bind S_ret op]. cbn [app].
    fold put1. rewrite H. cbn [app i_key i_raw i_etag]. fold put2.
    destruct (client [put1] put2); repeat split.
Qed.

Lemma putObj_carries_etag_witness :
  let client := two_records in
  let bucket := Samples.pivtokens_bucket in
  let obj := instance1 in
  let put1 := PutObjectAt (name bucket) (i_key obj) (i_raw obj) (i_etag obj) in
  (forall err, client [] put1 = inl err ->
     exec (putObj bucket obj) client = (inl err, [put1])
     /\ exec (put_twice bucket obj) client = (inl err, [put1]))
  /\ (forall res1, client [] put1 = inr res1 ->
       let put2 := PutObjectAt (name bucket) (i_key obj) (i_raw obj)
                     (prop res1 "etag") in
       exec (putObj bucket obj) client
       = (inr {| i_key := i_key obj; i_raw := i_raw obj;
                 i_etag := prop res1 "etag" |}, [put1])
       /\ puts (snd (exec (put_twice bucket obj) client))
          = [(name bucket, i_key obj, i_raw obj, i_etag obj);
             (name bucket, i_key obj, i_raw obj, prop res1 "etag")]
       /\ fst (exec (put_twice bucket obj) client)
          = match client [put1] put2 with
            | inl err => inl err
            | inr res2 => inr {| i_key := i_key obj; i_raw := i_raw obj;
                                 i_etag := prop res2 "etag" |}
            end).
Proof.
  apply (putObj_carries_etag two_records Samples.pivtokens_bucket instance1).
Defined.

Section Listing.
Context {A : Type}.
Variable c : Constants.

Lemma on_records_run (opts : ListOpts A) (client : Client) recs :
  forall results t,
    on_records opts recs results client t
    = (results ++ map (list_item opts) recs,
       t ++ map (fun _ => Debug "record from moray") recs).
Proof.
  induction recs as [|rec recs IH]; intros results t; cbn [on_records map].
  - cbv [mret S_ret]. now rewrite !app_nil_r.
  - cbv [mbind S_bind op]. rewrite IH. now rewrite <- !app_assoc.
Qed.

Lemma finds_debug (recs : list Rec) :
  finds (map (fun _ => Debug "record from moray") recs) = [].
Proof. induction recs; auto. Qed.

(** The whole of [listObjs], once the filter is built. *)
Lemma listObjs_run (opts : ListOpts A) (client : Client) f :
  list_filter opts = Ok f ->
  let say := Debug ("LDAP filter: " +:+ quoted (to_string f)) in
  let find := FindObjects (name (l_bucket opts)) f (listOpts_of c opts) in
  exec (listObjs c opts) client
  = (match snd (client [say] find) with
     | Some e => Ok (inl e)
     | None => Ok (inr (map (list_item opts) (fst (client [say] find))))
     end,
     [say; find]
       ++ map (fun _ => Debug "record from moray") (fst (client [say] find))).
Proof.
  intros Hf say find. unfold listObjs, exec. rewrite Hf.
  cbv [mbind mret S_bind S_ret op]. cbn [app]. fold say find.
  destruct (client [say] find) as [recs err]. rewrite on_records_run.
  cbn [fst snd app]. now destruct err.
Qed.

Lemma get_limit (opts : ListOpts A) :
  get "limit" (listOpts_of c opts)
  = Some (JNum (number_or (l_limit opts) (DEFAULT_LIMIT c)))
  /\ get "offset" (listOpts_of c opts)
     = Some (JNum (number_or (l_offset opts) (DEFAULT_OFFSET c))).
Proof.
  unfold listOpts_of.
  destruct (truthy (l_sort opts)), (truthy (l_noBucketCache opts)); split;
    reflexivity.
Qed.

End Listing.

(** X4: [listObjs] asks the store once, and always with a limit and an
    offset: the caller's when given and not zero, otherwise
    [DEFAULT_LIMIT] and [DEFAULT_OFFSET]; a limit of zero cannot be asked
    for. *)
Theorem listObjs_paging {A : Type}
    (c : Constants) (opts : ListOpts A) (client : Client) (f : JsVal) :
  list_filter opts = Ok f ->
  let or_default n d :=
    match n with
    | Some z => if z =? 0 then d else z
    | None => d
    end in
  exists listOpts,
    finds (snd (exec (listObjs c opts) client))
    = [(name (l_bucket opts), f, listOpts)]
    /\ get "limit" listOpts
       = Some (JNum (or_default (l_limit opts) (DEFAULT_LIMIT c)))
    /\ get "offset" listOpts
       = Some (JNum (or_default (l_offset opts) (DEFAULT_OFFSET c))).
Proof.
  intros Hf or_default. exists (listOpts_of c opts).
  rewrite (listObjs_run c opts client f Hf). cbn [snd].
  split.
  - unfold finds. rewrite omap_app. fold finds. rewrite finds_debug.
    reflexivity.
  - destruct (get_limit c opts) as [Hl Ho]. rewrite Hl, Ho.
    unfold number_or, or_default, truthy.
    destruct (l_limit opts) as [n|], (l_offset opts) as [m|];
      try destruct (n =? 0); try destruct (m =? 0); split; reflexivity.
Qed.

Lemma listObjs_paging_witness :
  let c := constants1 in
  let opts := list_models [("cn", JStr "cn9")] in
  let or_default n d :=
    match n with
    | Some z => if z =? 0 then d else z
    | None => d
    end in
  exists listOpts,
    finds (snd (exec (listObjs c opts) two_records))
    = [(name (l_bucket opts), JStr "(guid=*)", listOpts)]
    /\ get "limit" listOpts
       = Some (JNum (or_default (l_limit opts) (DEFAULT_LIMIT c)))
    /\ get "offset" listOpts
       = Some (JNum (or_default (l_offset opts) (DEFAULT_OFFSET c))).
Proof.
  apply (listObjs_paging constants1 (list_models [("cn", JStr "cn9")])
           two_records (JStr "(guid=*)")).
  reflexivity.
Defined.

(** X5: without a model, a request that ends normally gives the callback
    one result per record, in the order received; each is the record with
    its etag stored in the [etag] field of its value, the key and every other
    field of the value being as received. *)
Theorem listObjs_attaches_etag {A : Type}
    (c : Constants) (opts : ListOpts A) (client : Client) (f : JsVal)
    (recs : list Rec) :
  list_filter opts = Ok f ->
  l_model opts = None ->
  client [Debug ("LDAP filter: " +:+ quoted (to_string f))]
    (FindObjects (name (l_bucket opts)) f (listOpts_of c opts)) = (recs, None) ->
  exists results : list Rec,
    fst (exec (listObjs c opts) client) = Ok (inr (map inr results))
    /\ length results = length recs
    /\ forall (i : nat) rec, recs !! i = Some rec ->
         exists r, results !! i = Some r
           /\ rec_key r = rec_key rec
           /\ rec_etag r = rec_etag rec
           /\ get "etag" (rec_value r) = Some (rec_etag rec)
           /\ forall k, k <> "etag" ->
                get k (rec_value r) = get k (rec_value rec).
Proof.
  intros Hf Hm Hc. exists (map with_etag recs).
  rewrite (listObjs_run c opts client f Hf). cbv zeta. rewrite Hc. cbn [fst snd].
  split.
  - f_equal. f_equal. rewrite map_map. apply map_ext. intros r.
    unfold list_item. now rewrite Hm.
  - split; [apply length_map|].
    intros i rec Hi. exists (with_etag rec).
    rewrite list_lookup_fmap, Hi. cbn [fmap option_fmap option_map].
    repeat split.
    + apply get_set_eq.
    + intros k Hk. apply get_set_ne. congruence.
Qed.

Lemma listObjs_attaches_etag_witness :
  exists results : list Rec,
    fst (exec (listObjs constants1 (list_all JUndefined)) two_records)
    = Ok (inr (map inr results))
    /\ length results = length [rec1; rec2]
    /\ forall (i : nat) rec, [rec1; rec2] !! i = Some rec ->
         exists r, results !! i = Some r
           /\ rec_key r = rec_key rec
           /\ rec_etag r = rec_etag rec
           /\ get "etag" (rec_value r) = Some (rec_etag rec)
           /\ forall k, k <> "etag" ->
                get k (rec_value r) = get k (rec_value rec).
Proof.
  apply (listObjs_attaches_etag constants1 (list_all JUndefined) two_records
           (JStr "(guid=*)") [rec1; rec2]); reflexivity.
Defined.

Example listObjs_models :
  fst (exec (listObjs constants1 (list_models [("etag", JStr "mine"); ("cn", JStr "cn9")]))
         two_records)
  = Ok (inr [inl (JObj [("guid", JStr "G1"); ("cn_uuid", JStr "cn1");
                        ("etag", JStr "mine"); ("cn", JStr "cn9")]);
             inl (JObj [("guid", JStr "G2"); ("etag", JStr "mine");
                        ("cn", JStr "cn9")])]).
Proof. reflexivity. Qed.

(** X6: with a model and [extra] parameters, each result is the model built
    from the record's value in which the properties of [extra] win over the
    record's own, its etag included; a field [extra] does not name is the
    record's etag for [etag], and the record's field otherwise. *)
Theorem listObjs_extra_wins {A : Type}
    (c : Constants) (opts : ListOpts A) (client : Client) (f : JsVal)
    (recs : list Rec) (model : Obj -> A) (extra : Obj) :
  list_filter opts = Ok f ->
  l_model opts = Some model ->
  l_extra opts = Some extra ->
  client [Debug ("LDAP filter: " +:+ quoted (to_string f))]
    (FindObjects (name (l_bucket opts)) f (listOpts_of c opts)) = (recs, None) ->
  exists values : list Obj,
    fst (exec (listObjs c opts) client)
    = Ok (inr (map (fun v => inl (model v)) values))
    /\ length values = length recs
    /\ forall (i : nat) rec, recs !! i = Some rec ->
         exists v, values !! i = Some v
           /\ forall k,
                get k v
                = match get k extra with
                  | Some x => Some x
                  | None =>
                      if String.eqb k "etag" then Some (rec_etag rec)
                      else get k (rec_value rec)
                  end.
Proof.
  intros Hf Hm He Hc.
  exists (map (fun rec => with_extra extra (rec_value (with_etag rec))) recs).
  rewrite (listObjs_run c opts client f Hf). cbv zeta. rewrite Hc. cbn [fst snd].
  split.
  - f_equal. f_equal. rewrite map_map. apply map_ext. intros r.
    unfold list_item. now rewrite Hm, He.
  - split; [apply length_map|].
    intros i rec Hi. eexists. rewrite list_lookup_fmap, Hi.
    split; [reflexivity|]. intros k.
    change (with_extra extra (rec_value (with_etag rec)))
      with (merged (rec_value (with_etag rec)) extra false).
    rewrite MorayUpdate.get_merged. destruct (get k extra); [reflexivity|].
    cbn [with_etag rec_value]. destruct (String.eqb k "etag") eqn:E.
    + apply String.eqb_eq in E. subst k. apply get_set_eq.
    + apply get_set_ne. intros <-. discriminate.
Qed.

Lemma listObjs_extra_wins_witness :
  let extra := [("etag", JStr "mine"); ("cn", JStr "cn9")] in
  exists values : list Obj,
    fst (exec (listObjs constants1 (list_models extra)) two_records)
    = Ok (inr (map (fun v => inl (JObj v)) values))
    /\ length values = length [rec1; rec2]
    /\ forall (i : nat) rec, [rec1; rec2] !! i = Some rec ->
         exists v, values !! i = Some v
           /\ forall k,
                get k v
                = match get k extra with
                  | Some x => Some x
                  | None =>
                      if String.eqb k "etag" then Some (rec_etag rec)
                      else get k (rec_value rec)
                  end.
Proof.
  apply (listObjs_extra_wins constants1
           (list_models [("etag", JStr "mine"); ("cn", JStr "cn9")])
           two_records (JStr "(guid=*)") [rec1; rec2] JObj
           [("etag", JStr "mine"); ("cn", JStr "cn9")]); reflexivity.
Defined.

Example listObjs_throws :
  exec (listObjs constants1 (list_all (JObj [("guid", JArr [JBool true])])))
    two_records
  = (Throw "TypeError: inObj[i][j].substr is not a function", []).
Proof. reflexivity. Qed.

(** X7: when building the filter throws, [listObjs] throws before asking
    the store for anything; when the request ends in an error the callback
    gets that error alone, whatever records arrived before it. *)
Theorem listObjs_failures {A : Type}
    (c : Constants) (opts : ListOpts A) (client : Client) :
  (forall what, list_filter opts = Throw what ->
     exec (listObjs c opts) client = (Throw what, []))
  /\ (forall f recs err, list_filter opts = Ok f ->
        client [Debug ("LDAP filter: " +:+ quoted (to_string f))]
          (FindObjects (name (l_bucket opts)) f (listOpts_of c opts))
        = (recs, Some err) ->
        fst (exec (listObjs c opts) client) = Ok (inl err)).
Proof.
  split.
  - intros what H. unfold listObjs, exec. now rewrite H.
  - intros f recs err Hf Hc. rewrite (listObjs_run c opts client f Hf).
    cbv zeta. now rewrite Hc.
Qed.

Lemma listObjs_failures_witness :
  let opts := list_all (JObj [("guid", JStr "G1")]) in
  (forall what, list_filter opts = Throw what ->
     exec (listObjs constants1 opts) no_objects = (Throw what, []))
  /\ (forall f recs err, list_filter opts = Ok f ->
        no_objects [Debug ("LDAP filter: " +:+ quoted (to_string f))]
          (FindObjects (name (l_bucket opts)) f (listOpts_of constants1 opts))
        = (recs, Some err) ->
        fst (exec (listObjs constants1 opts) no_objects) = Ok (inl err)).
Proof.
  apply (listObjs_failures constants1 (list_all (JObj [("guid", JStr "G1")]))
           no_objects).
Defined.

(** X8: a parameter object without a [filter] property (and, as the tests
    are calls through the objects, none named [hasOwnProperty], in a bucket
    whose index has no field of that name) filters the listing by its
    indexed properties only: listing with it and listing with its indexed
    properties alone ask the store for the same and give the callback the
    same; when it has no indexed property, the store is asked with
    [opts.defaultFilter]. *)
Theorem listObjs_filters_on_index {A : Type}
    (c : Constants) (opts : ListOpts A) (client : Client) (o : Obj) :
  l_filter opts = JObj o ->
  hasOwnProperty o "filter" = false ->
  hasOwnProperty o "hasOwnProperty" = false ->
  hasOwnProperty (index (schema (l_bucket opts))) "hasOwnProperty" = false ->
  let indexed_alone :=
    with_filter (JObj (indexed_only (l_bucket opts) o)) opts in
  fst (exec (listObjs c opts) client)
  = fst (exec (listObjs c indexed_alone) client)
  /\ finds (snd (exec (listObjs c opts) client))
     = finds (snd (exec (listObjs c indexed_alone) client))
  /\ (indexed_only (l_bucket opts) o = [] ->
      finds (snd (exec (listObjs c opts) client))
      = [(name (l_bucket opts), l_defaultFilter opts, listOpts_of c opts)]).
Proof.
  intros Ho Hf Hown Hindex indexed_alone.
  assert (E : list_filter indexed_alone = list_filter opts).
  { unfold list_filter, indexed_alone.
    cbn [with_filter l_filter l_bucket l_defaultFilter].
    rewrite Ho. now rewrite <- MorayFilter.ldapFilter_indexed_only. }
  assert (Hsame : exec (listObjs c opts) client
                  = exec (listObjs c indexed_alone) client).
  { destruct (list_filter opts) as [f|what] eqn:Hl.
    + rewrite (listObjs_run c opts client f Hl).
      rewrite (listObjs_run c _ client f E). reflexivity.
    + unfold listObjs, exec. now rewrite E, Hl. }
  split; [now rewrite Hsame|]. split; [now rewrite Hsame|].
  intros Hnone.
  assert (Hl : list_filter opts = Ok (l_defaultFilter opts)).
  { unfold list_filter. rewrite Ho.
    rewrite MorayFilter.ldapFilter_indexed_only, Hnone by assumption.
    reflexivity. }
  rewrite (listObjs_run c opts client _ Hl). cbn [snd].
  unfold finds. rewrite omap_app. fold finds. now rewrite finds_debug.
Qed.

Lemma listObjs_filters_on_index_witness :
  let opts := list_all (JObj [("pin", JStr "1234")]) in
  let o := [("pin", JStr "1234")] in
  let indexed_alone :=
    with_filter (JObj (indexed_only (l_bucket opts) o)) opts in
  fst (exec (listObjs constants1 opts) two_records)
  = fst (exec (listObjs constants1 indexed_alone) two_records)
  /\ finds (snd (exec (listObjs constants1 opts) two_records))
     = finds (snd (exec (listObjs constants1 indexed_alone) two_records))
  /\ (indexed_only (l_bucket opts) o = [] ->
      finds (snd (exec (listObjs constants1 opts) two_records))
      = [(name (l_bucket opts), l_defaultFilter opts,
          listOpts_of constants1 opts)]).
Proof.
  apply (listObjs_filters_on_index constants1
           (list_all (JObj [("pin", JStr "1234")])) two_records
           [("pin", JStr "1234")]); reflexivity.
Defined.

End MorayObjectsFacts.

(** ** More on the filter, the array decoding and the bucket prefix
       (moray.js) *)

Module MorayMore.
Import Js World Moray Views ObjectViews JsFacts.

Lemma get_in (k : string) (o : Obj) v : get k o = Some v -> In (k, v) o.
Proof.
  induction o as [|[k0 v0] o IH]; simpl; [discriminate|].
  destruct (String.eqb k k0) eqn:E.
  - apply String.eqb_eq in E. intros [= ->]. subst. auto.
  - auto.
Qed.

(** *** Plain values never throw *)

Lemma all_plain_entries o :
  Forall (fun kv => plain_value (snd kv) = true) o -> all_plain o.
Proof.
  intros H k. unfold prop. destruct (get k o) as [v|] eqn:E; [|reflexivity].
  apply get_in in E. exact (proj1 (List.Forall_forall _ _) H _ E).
Qed.

Lemma all_plain_split i o : all_plain o -> all_plain (split_listed i o).
Proof.
  intros H k. unfold split_listed.
  destruct (prop o i) as [| | | |s| |] eqn:E; auto.
  destruct (has_comma s); auto.
  unfold prop. destruct (String.eqb i k) eqn:Ek.
  - apply String.eqb_eq in Ek. subst k. rewrite get_set_eq. simpl.
    induction (split_sep s); simpl; auto.
  - rewrite get_set_ne. { apply H. }
    intros ->. rewrite String.eqb_refl in Ek. discriminate.
Qed.

Lemma rmap_plain i l :
  forallb plain_elem l = true -> exists ps, rmap (filter_elem i) l = Ok ps.
Proof.
  induction l as [|x l IH]; simpl; intros H; [eauto|].
  apply andb_true_iff in H as [Hx Hl]. destruct (IH Hl) as [ps ->].
  destruct x; try discriminate; simpl.
  - eauto.
  - destruct (starts_with_bang s); simpl; eauto.
Qed.

Lemma filter_pieces_plain i v :
  plain_value v = true -> exists ps, filter_pieces i v = Ok ps.
Proof.
  intros H. unfold filter_pieces.
  destruct v as [| |b|n|s|l|fs]; simpl; eauto.
  - destruct b; eauto.
  - destruct (rmap_plain i l H) as [ps ->]. simpl. eauto.
  - assert (Hl : forallb plain_elem (map (prop fs) (keys fs)) = true).
    { simpl in H. apply List.forallb_forall. intros x Hx.
      apply List.in_map_iff in Hx as [k [<- Hk]].
      unfold prop. destruct (get k fs) as [v|] eqn:E.
      - apply get_in in E.
        exact (proj1 (List.forallb_forall _ _) H _ E).
      - exfalso. apply List.in_map_iff in Hk as [[k' v'] [<- Hin]]. simpl in E.
        clear -Hin E. induction fs as [|[k0 v0] o IH]; [contradiction|].
        simpl in *. destruct (String.eqb k' k0) eqn:E0; [discriminate|].
        destruct Hin as [[= -> ->]|Hin]; auto.
        rewrite String.eqb_refl in E0. discriminate. }
    destruct (rmap_plain i _ Hl) as [ps ->]. simpl. eauto.
Qed.

(** The test on the index returns when the index has no field named
    [hasOwnProperty], and when there is no bucket. *)
Lemma not_indexed_returns bucket i :
  (forall b, bucket = Some b ->
     hasOwnProperty (index (schema b)) "hasOwnProperty" = false) ->
  exists skip, not_indexed bucket i = Ok skip.
Proof.
  intros H. destruct bucket as [b|]; [|simpl; eauto].
  unfold not_indexed. rewrite call_hasOwnProperty_plain by now apply H.
  simpl. eauto.
Qed.

Lemma rfold_plain bucket ks :
  (forall b, bucket = Some b ->
     hasOwnProperty (index (schema b)) "hasOwnProperty" = false) ->
  forall o arr,
  all_plain o -> exists st, rfold (filter_step bucket) ks (o, arr) = Ok st.
Proof.
  intros Hb.
  induction ks as [|i ks IH]; intros o arr Hp; cbn [rfold]; [eauto|].
  unfold filter_step at 1.
  destruct (not_indexed_returns bucket i Hb) as [skip ->]. cbn [rbind].
  destruct skip; cbn [rbind].
  - now apply IH.
  - pose proof (all_plain_split i o Hp) as Hp'.
    destruct (filter_pieces_plain i (prop (split_listed i o) i) (Hp' i)) as [ps ->].
    cbn [rbind]. now apply IH.
Qed.

(** X10: [ldapFilter] throws on no parameter object whose list-valued
    properties hold numbers and strings only, provided the tests it makes
    through the object and through the index of the bucket reach the
    inherited [hasOwnProperty] (neither has a property of that name): it
    returns a string. *)
Theorem ldapFilter_plain_returns (bucket : option Bucket) (o : Obj) :
  hasOwnProperty o "filter" = false ->
  hasOwnProperty o "hasOwnProperty" = false ->
  (forall b, bucket = Some b ->
     hasOwnProperty (index (schema b)) "hasOwnProperty" = false) ->
  Forall (fun kv => plain_value (snd kv) = true) o ->
  exists s, ldapFilter (JObj o) bucket = Ok (JStr s).
Proof.
  intros Hf Hown Hb Hp. rewrite MorayFilter.ldapFilter_fields by assumption.
  unfold filter_fields.
  destruct (rfold_plain bucket (keys o) Hb o [] (all_plain_entries o Hp))
    as [st ->].
  cbn [rbind]. eauto.
Qed.

Lemma ldapFilter_plain_returns_witness :
  exists s,
    ldapFilter (JObj [("guid", JArr [JStr "G1"; JStr "!G2"]); ("cn_uuid", JNull);
                      ("active", JBool true); ("n", JNum 3)])
      (Some Samples.pivtokens_bucket)
    = Ok (JStr s).
Proof.
  apply (ldapFilter_plain_returns (Some Samples.pivtokens_bucket)
           [("guid", JArr [JStr "G1"; JStr "!G2"]); ("cn_uuid", JNull);
            ("active", JBool true); ("n", JNum 3)]).
  - reflexivity.
  - reflexivity.
  - intros b [= <-]. reflexivity.
  - repeat constructor.
Defined.

(** *** Decoding twice *)

Example valToArray_absent :
  valToArray [("uuid", JStr "u")] "targets" = Ok [("uuid", JStr "u")].
Proof. reflexivity. Qed.

(** X11: a [valToArray] that returns touches the field [key] only, leaves
    there no string (the field is gone or holds an object), and decoding
    again changes nothing. *)
Theorem valToArray_idempotent (params params' : Obj) (key : string) :
  valToArray params key = Ok params' ->
  valToArray params' key = Ok params'
  /\ (forall k, k <> key -> get k params' = get k params)
  /\ match get key params' with
     | Some v => is_object v = true
     | None => True
     end.
Proof.
  unfold valToArray, call_hasOwnProperty.
  destruct (hasOwnProperty params "hasOwnProperty") eqn:Hown;
    [discriminate|]. cbn [rbind].
  assert (Hkey : forall v, get key params = Some v -> key <> "hasOwnProperty").
  { intros v E ->. unfold hasOwnProperty in Hown. now rewrite E in Hown. }
  unfold hasOwnProperty, prop.
  destruct (get key params) as [v|] eqn:E; cbn [negb].
  - specialize (Hkey v eq_refl). destruct (is_object v) eqn:Ev.
    + intros [= <-]. fold (hasOwnProperty params "hasOwnProperty").
      rewrite Hown. cbn [rbind]. rewrite E. cbn [negb]. rewrite Ev. auto.
    + destruct v; try discriminate.
      destruct (String.eqb s ",,").
      * intros [= <-]. rewrite get_del_ne by assumption.
        fold (hasOwnProperty params "hasOwnProperty"). rewrite Hown.
        cbn [rbind]. rewrite get_del_eq. cbn [negb].
        repeat split. intros k Hk. apply get_del_ne. congruence.
      * unfold arrayify. cbn [is_object typeof].
        destruct (String.eqb _ ""); cbn [rbind]; intros [= <-];
          rewrite get_set_ne by assumption;
          fold (hasOwnProperty params "hasOwnProperty"); rewrite Hown;
          cbn [rbind]; rewrite get_set_eq; cbn [negb is_object typeof];
          (repeat split; intros k Hk; apply get_set_ne; congruence).
  - intros [= <-]. fold (hasOwnProperty params "hasOwnProperty").
    rewrite Hown. cbn [rbind]. rewrite E. cbn [negb]. auto.
Qed.

Lemma valToArray_idempotent_witness :
  let params := [("uuid", JStr "u"); ("targets", JStr ",cn1,cn2,")] in
  let params' := [("uuid", JStr "u"); ("targets", JArr [JStr "cn1"; JStr "cn2"])] in
  valToArray params' "targets" = Ok params'
  /\ (forall k, k <> "targets" -> get k params' = get k params)
  /\ match get "targets" params' with
     | Some v => is_object v = true
     | None => True
     end.
Proof.
  apply (valToArray_idempotent
           [("uuid", JStr "u"); ("targets", JStr ",cn1,cn2,")]
           [("uuid", JStr "u"); ("targets", JArr [JStr "cn1"; JStr "cn2"])]
           "targets").
  reflexivity.
Defined.

(** *** The bucket prefix *)

(** X12: [initBucket] applies the bucket prefix at most once: the
    configuration it leaves behind is named with the prefix and marked, a
    second [initBucket] on it leaves it as it is, and both calls look up the
    bucket of that one name, whatever the store answers. *)
Theorem initBucket_prefixes_once
    (env env' : Env) (BUCKET_PFX : string) (bucket : Bucket) :
  let first := run (initBucket BUCKET_PFX bucket) env in
  let bucket1 := snd (fst first) in
  let second := run (initBucket BUCKET_PFX bucket1) env' in
  snd (fst second) = bucket1
  /\ buckets_asked (snd first) = [name bucket1]
  /\ buckets_asked (snd second) = [name bucket1]
  /\ (BUCKET_PFX <> "" -> name_prefixed bucket = false ->
      name bucket1 = BUCKET_PFX +:+ name bucket /\ name_prefixed bucket1 = true)
  /\ (BUCKET_PFX = "" \/ name_prefixed bucket = true -> bucket1 = bucket).
Proof.
  intros first bucket1 second.
  assert (Hrun : forall e b,
            snd (fst (run (initBucket BUCKET_PFX b) e)) = effective_bucket BUCKET_PFX b
            /\ buckets_asked (snd (run (initBucket BUCKET_PFX b) e))
               = [effective_name BUCKET_PFX b]).
  { intros e b. rewrite MorayInit.initBucket_prefix. cbv zeta.
    assert (Hw : buckets_asked (prefix_warning BUCKET_PFX b) = []).
    { unfold prefix_warning. now destruct (prefixing _ _). }
    destruct (e _ _) as [err|prev]; [destruct (hasCauseWithName _ _)|];
      cbn [fst snd]; (split; [reflexivity|]);
      unfold buckets_asked in *; rewrite !omap_app, Hw;
      try match goal with
          | |- context [match ?x with Some _ => _ | None => _ end] => destruct x
          end; reflexivity. }
  assert (H1 : bucket1 = effective_bucket BUCKET_PFX bucket)
    by apply (Hrun env bucket).
  assert (Hn : effective_name BUCKET_PFX bucket = name bucket1).
  { rewrite H1. unfold effective_name, effective_bucket.
    now destruct (prefixing _ _). }
  assert (Hp : prefixing BUCKET_PFX bucket1 = false).
  { rewrite H1. unfold effective_bucket.
    destruct (prefixing BUCKET_PFX bucket) eqn:E; [|exact E].
    unfold prefixing. cbn [name_prefixed]. apply andb_false_r. }
  split; [|split; [|split; [|split]]].
  - subst second. rewrite (proj1 (Hrun env' bucket1)).
    unfold effective_bucket. now rewrite Hp.
  - subst first. now rewrite (proj2 (Hrun env bucket)), Hn.
  - subst second. rewrite (proj2 (Hrun env' bucket1)).
    unfold effective_name. now rewrite Hp.
  - intros Hne Hnp. rewrite H1. unfold effective_bucket, prefixing. rewrite Hnp.
    destruct (String.eqb BUCKET_PFX "") eqn:E.
    + apply String.eqb_eq in E. contradiction.
    + split; reflexivity.
  - intros H. rewrite H1. unfold effective_bucket, prefixing.
    destruct H as [-> | ->]; [reflexivity|]. now rewrite andb_false_r.
Qed.

Lemma initBucket_prefixes_once_witness :
  let first := run (initBucket "test_" Samples.tokens_bucket) Samples.empty_store in
  let bucket1 := snd (fst first) in
  let second := run (initBucket "test_" bucket1) Samples.all_buckets in
  snd (fst second) = bucket1
  /\ buckets_asked (snd first) = [name bucket1]
  /\ buckets_asked (snd second) = [name bucket1]
  /\ ("test_" <> "" -> name_prefixed Samples.tokens_bucket = false ->
      name bucket1 = "test_" +:+ name Samples.tokens_bucket
      /\ name_prefixed bucket1 = true)
  /\ ("test_" = "" \/ name_prefixed Samples.tokens_bucket = true ->
      bucket1 = Samples.tokens_bucket).
Proof.
  apply (initBucket_prefixes_once Samples.empty_store Samples.all_buckets
           "test_" Samples.tokens_bucket).
Defined.

End MorayMore.

(** ** Comma-separated values in a filter (moray.js) *)

Module MorayLists.
Import Js World Moray Views ObjectViews JsFacts MorayMore.









Section CommaList.
Variable bucket : option Bucket.
Variable k : string.
Variable s : string.
Hypothesis Hs : has_comma s = true.

Let same_but_split := same_but_split k s.




End CommaList.

Example ldapFilter_comma :
  ldapFilter (JObj [("guid", JStr "G1, !G2 ,G3")]) None
  = Ok (JStr "(&(|(guid=G1)(!(guid=G2))(guid=G3)))").
Proof. reflexivity. Qed.



End MorayLists.

(** ** More on the pivtoken endpoints (pivtokens.js) *)

Module PivtokensMore.
Import Js World Http Auth Pivtokens Views Samples ObjectViews JsFacts TraceFacts.
Import PivtokensArchive PivtokensRoutes.

(** X13: when the lookup of the token fails with anything but a 404, the
    request ends there with that error: no handler after [preloadPivtoken]
    runs, whatever it is, and nothing but the lookup is asked for. *)
Theorem preload_error_stops
    (env : Env) (rest : list Handler) (req : Req) (guid : JsVal) (err : Err) :
  preload_guid (params req) = Ok guid ->
  env [] (PivtokenGetPin [("guid", guid)]) = inl err ->
  statusCode err <> Some 404 ->
  run (run_chain (preloadPivtoken :: rest) req empty_res) env
  = ((req, empty_res, Fail err), [PivtokenGetPin [("guid", guid)]]).
Proof.
  intros Hg He H404. unfold run.
  rewrite run_chain_cons,
    (preloadPivtoken_error env req guid Hg _ _ err) by assumption.
  reflexivity.
Qed.

Lemma preload_error_stops_witness :
  run (run_chain (preloadPivtoken :: [deletePivtoken])
         (request "deltoken" [("guid", JStr "G1")] []) empty_res) lookup_down
  = ((request "deltoken" [("guid", JStr "G1")] [], empty_res,
      Fail (InternalError "no active connections")),
     [PivtokenGetPin [("guid", JStr "G1")]]).
Proof.
  apply (preload_error_stops lookup_down [deletePivtoken]
           (request "deltoken" [("guid", JStr "G1")] []) (JStr "G1")
           (InternalError "no active connections"));
    [reflexivity|reflexivity|discriminate].
Defined.

Example recover_create_down :
  run (recoveryPivtoken (req1 "recoverytoken") empty_res) create_down
  = ((req1 "recoverytoken", empty_res,
      Fail (InternalError "no active connections")),
     [PivtokenHistoryCreate (JObj token1); PivtokenDel (JObj token1);
      PivtokenCreate JUndefined]).
Proof. reflexivity. Qed.

(** X14: recovery is not atomic: when the creation of the replacement
    fails, the old token has already been archived and deleted; the client
    gets the creation error and nothing is asked for afterwards, so the old
    token is not restored. *)
Theorem recovery_not_atomic
    (env : Env) (req : Req) (res : Res) (t : list Call) (tk token : Obj)
    (g : string) (createErr : Err) :
  pivtoken req = Some tk -> rawToken req = Some token ->
  prop token "guid" = JStr g ->
  let archive := PivtokenHistoryCreate (JObj token) in
  let remove := PivtokenDel (JObj token) in
  let create := PivtokenCreate (prop (params req) "token") in
  env t archive = None ->
  env (t ++ [archive]) remove = None ->
  env (t ++ [archive; remove]) create = inl createErr ->
  recoveryPivtoken req res env t
  = ((req, res, Fail createErr), t ++ [archive; remove; create])
  /\ deleted (snd (recoveryPivtoken req res env t)) = deleted t ++ [JObj token]
  /\ created (snd (recoveryPivtoken req res env t))
     = created t ++ [prop (params req) "token"].
Proof.
  intros Hp Hr Hg archive remove create Ha Hd Hc.
  assert (E : recoveryPivtoken req res env t
              = ((req, res, Fail createErr), t ++ [archive; remove; create])).
  { pose proof (archiveAndDeletePivtoken_archived env token g Hg t Ha) as H.
    cbv zeta in H. rewrite <- app_assoc in H.
    unfold recoveryPivtoken. rewrite Hp, Hr. bind_m. rewrite H. cbv iota beta.
    fold archive remove. rewrite Hd. cbv [mbind mret M_bind M_ret call].
    cbn [app]. fold create. rewrite Hc. now rewrite <- app_assoc. }
  rewrite E. cbn [snd]. unfold deleted, created. rewrite !omap_app.
  repeat split.
Qed.

Lemma recovery_not_atomic_witness :
  let req := req1 "recoverytoken" in
  let archive := PivtokenHistoryCreate (JObj token1) in
  let remove := PivtokenDel (JObj token1) in
  let create := PivtokenCreate (prop (params req) "token") in
  recoveryPivtoken req empty_res create_down []
  = ((req, empty_res, Fail (InternalError "no active connections")),
     [] ++ [archive; remove; create])
  /\ deleted (snd (recoveryPivtoken req empty_res create_down []))
     = deleted [] ++ [JObj token1]
  /\ created (snd (recoveryPivtoken req empty_res create_down []))
     = created [] ++ [prop (params req) "token"].
Proof.
  apply (recovery_not_atomic create_down (req1 "recoverytoken") empty_res []
           (del "pin" token1) token1 "97496DD1C8F053DE7450CD854D9C95B4"
           (InternalError "no active connections")); reflexivity.
Defined.

(** X15: [deletePivtoken] on a pre-loaded token answers 204 exactly when the
    archival and then the deletion both succeeded; it never creates a token,
    and it sends no other response itself. *)
Theorem deletePivtoken_204_iff
    (env : Env) (req : Req) (res : Res) (t : list Call) (tk token : Obj)
    (g : string) :
  pivtoken req = Some tk -> rawToken req = Some token ->
  prop token "guid" = JStr g ->
  sent res = None ->
  let archive := PivtokenHistoryCreate (JObj token) in
  let remove := PivtokenDel (JObj token) in
  let out := deletePivtoken req res env t in
  (sent_with 204 (fst out)
   <-> env t archive = None /\ env (t ++ [archive]) remove = None)
  /\ created (snd out) = created t
  /\ (sent (snd (fst (fst out))) = None \/ sent_with 204 (fst out)).
Proof.
  intros Hp Hr Hg Hs archive remove out. subst out.
  destruct (env t archive) as [e|] eqn:Ha.
  - pose proof (archiveAndDeletePivtoken_archive_fails env token g Hg t e Ha) as H.
    cbv zeta in H. unfold deletePivtoken. rewrite Hp, Hr. bind_m. rewrite H.
    cbv [mret M_ret]. cbn [fst snd]. unfold sent_with. cbn [fst snd].
    rewrite Hs. split; [|split].
    + split; [intros [b Hb]; discriminate|intros [? _]; discriminate].
    + unfold created. rewrite omap_app. apply app_nil_r.
    + now left.
  - pose proof (archiveAndDeletePivtoken_archived env token g Hg t Ha) as H.
    cbv zeta in H. rewrite <- app_assoc in H.
    unfold deletePivtoken. rewrite Hp, Hr. bind_m. rewrite H. cbv iota beta.
    fold archive remove.
    destruct (env (t ++ [archive]) remove) as [e|] eqn:Hd;
      cbv [mret M_ret]; cbn [fst snd]; unfold sent_with; cbn [fst snd res_send sent];
      rewrite ?Hs; (split; [|split]).
    + split; [intros [b Hb]; discriminate|intros [_ ?]; discriminate].
    + unfold created. rewrite omap_app. apply app_nil_r.
    + now left.
    + split; [auto|]. intros _. now exists JUndefined.
    + unfold created. rewrite omap_app. apply app_nil_r.
    + right. now exists JUndefined.
Qed.

Lemma deletePivtoken_204_iff_witness :
  let archive := PivtokenHistoryCreate (JObj token1) in
  let remove := PivtokenDel (JObj token1) in
  let out := deletePivtoken (req1 "deltoken") empty_res empty_store [] in
  (sent_with 204 (fst out)
   <-> empty_store [] archive = None /\ empty_store ([] ++ [archive]) remove = None)
  /\ created (snd out) = created []
  /\ (sent (snd (fst (fst out))) = None \/ sent_with 204 (fst out)).
Proof.
  apply (deletePivtoken_204_iff empty_store (req1 "deltoken") empty_res []
           (del "pin" token1) token1 "97496DD1C8F053DE7450CD854D9C95B4");
    reflexivity.
Defined.

(** X16: the two reading routes, [listtokens] and [gettoken], are not
    authenticated: the response and the calls do not depend on the verifier
    or on the request's headers, and the only call is the model's list or
    get with the request's parameters.  A [get] that calls back with neither
    error nor token is answered 404 "pivtoken not found". *)
Theorem reads_not_authenticated
    (V1 V2 : Verifier) (env : Env) (name : string) (p h1 h2 : Obj) :
  In name ["listtokens"; "gettoken"] ->
  let out1 := run (@serve V1 (request name p h1)) env in
  let out2 := run (@serve V2 (request name p h2)) env in
  response (fst out1) = response (fst out2)
  /\ snd out1 = snd out2
  /\ (snd out1 = [PivtokenList p] \/ snd out1 = [PivtokenGet p])
  /\ (name = "gettoken" -> env [] (PivtokenGet p) = inr None ->
      response (fst out1) = Some not_found).
Proof.
  intros Hn out1 out2. subst out1 out2. simpl in Hn.
  destruct Hn as [<-|[<-|[]]]; unfold serve, run; cbn [route request].
  - change (@route_chain V1 [] "listtokens") with [listPivtokens].
    change (@route_chain V2 [] "listtokens") with [listPivtokens].
    rewrite !run_chain_cons. unfold listPivtokens.
    cbv [mbind mret M_bind M_ret call]. cbn [app params request].
    destruct (env [] (PivtokenList p)); cbn;
      (split; [reflexivity|split; [reflexivity|split; [now left|]]]);
      intros; discriminate.
  - change (@route_chain V1 [] "gettoken") with [getPivtoken].
    change (@route_chain V2 [] "gettoken") with [getPivtoken].
    rewrite !run_chain_cons. unfold getPivtoken.
    cbv [mbind mret M_bind M_ret call]. cbn [app params request].
    destruct (env [] (PivtokenGet p)) as [e|[tok|]]; cbn;
      (split; [reflexivity|split; [reflexivity|split; [now right|]]]);
      intros _ H; try discriminate H; reflexivity.
Qed.

Lemma reads_not_authenticated_witness :
  let p := [("guid", JStr "G1")] in
  let out1 := run (@serve toy_verifier (request "gettoken" p [])) empty_store in
  let out2 :=
    run (@serve toy_verifier (request "gettoken" p [("signature", JStr "x")]))
      empty_store in
  response (fst out1) = response (fst out2)
  /\ snd out1 = snd out2
  /\ (snd out1 = [PivtokenList p] \/ snd out1 = [PivtokenGet p])
  /\ ("gettoken" = "gettoken" -> empty_store [] (PivtokenGet p) = inr None ->
      response (fst out1) = Some not_found).
Proof.
  apply (reads_not_authenticated toy_verifier toy_verifier empty_store
           "gettoken" [("guid", JStr "G1")] [] [("signature", JStr "x")]).
  simpl. auto.
Defined.

End PivtokensMore.

(** ** More on the recovery-configuration endpoints
       (recovery-configurations.js) *)

Module ConfigurationsMore.
Import Js World Http RecoveryConfigurations Views Samples ObjectViews JsFacts.
Import TraceFacts RecoveryTransitions.

Lemma preloadRecoveryConfiguration_no_uuid (env : Env) req res t :
  truthy (prop (params req) "uuid") = false ->
  preloadRecoveryConfiguration req res env t = ((req, res, Continue), t).
Proof.
  intros H. unfold preloadRecoveryConfiguration. now rewrite H.
Qed.

Lemma preloadRecoveryConfiguration_error (env : Env) req res t err :
  truthy (prop (params req) "uuid") = true ->
  env t (RecoveryConfigurationGet [("uuid", prop (params req) "uuid")]) = inl err ->
  preloadRecoveryConfiguration req res env t
  = ((req, res, if decide (statusCode err = Some 404) then Continue else Fail err),
     t ++ [RecoveryConfigurationGet [("uuid", prop (params req) "uuid")]]).
Proof.
  intros Hu He. unfold preloadRecoveryConfiguration. rewrite Hu. cbn [negb].
  cbv [mbind mret M_bind M_ret call]. rewrite He.
  now destruct (decide (statusCode err = Some 404)).
Qed.

Lemma put_chain_handlers :
  put_chain [] = [preloadRecoveryConfiguration; updateRecoveryConfiguration].
Proof. reflexivity. Qed.

Example put_without_action :
  response (fst (run (run_chain (put_chain [])
                        (put_request [("uuid", JStr "u1"); ("force", JBool true)])
                        empty_res) transition_starts))
  = Some {| status := 409;
            body := JObj [("code", JStr "MissingParameter");
                          ("message",
                           JStr "A value for the 'action' parameter must be provided")];
            resp_headers := [] |}.
Proof. reflexivity. Qed.

(** X17: a PUT starts no transition unless the configuration exists and an
    action is given: for a configuration that is not found (no uuid, or a
    404 from the lookup) the answer is 404 "recovery configuration not
    found"; for another lookup error it is that error; for an existing
    configuration without a truthy [action] it is the 409
    [MissingParameter]. *)
Theorem put_validates_first (env : Env) (p : Obj) :
  let lookup := RecoveryConfigurationGet [("uuid", prop p "uuid")] in
  let out := run (run_chain (put_chain []) (put_request p) empty_res) env in
  (truthy (prop p "uuid") = false ->
     response (fst out) = Some configuration_not_found /\ snd out = [])
  /\ (forall err, truthy (prop p "uuid") = true -> env [] lookup = inl err ->
        snd out = [lookup]
        /\ response (fst out)
           = if decide (statusCode err = Some 404)
             then Some configuration_not_found
             else Some {| status := default 500 (statusCode err);
                          body := error_body err; resp_headers := [] |})
  /\ (forall cfg, truthy (prop p "uuid") = true -> env [] lookup = inr cfg ->
        truthy (prop p "action") = false ->
        snd out = [lookup]
        /\ response (fst out)
           = Some {| status := 409;
                     body := error_body
                               (MissingParameterError
                                  "A value for the 'action' parameter must be provided");
                     resp_headers := [] |}).
Proof.
  intros lookup out. subst out. unfold run. rewrite put_chain_handlers.
  split; [|split].
  - intros Hu. rewrite run_chain_cons, preloadRecoveryConfiguration_no_uuid
      by assumption.
    rewrite run_chain_cons. split; reflexivity.
  - intros err Hu He.
    rewrite run_chain_cons,
      (preloadRecoveryConfiguration_error env (put_request p) empty_res [] err)
      by assumption.
    destruct (decide (statusCode err = Some 404)).
    + rewrite run_chain_cons. split; reflexivity.
    + split; reflexivity.
  - intros cfg Hu He Ha.
    rewrite run_chain_cons,
      (preloadRecoveryConfiguration_found env (put_request p) empty_res [] cfg)
      by assumption.
    rewrite run_chain_cons. unfold updateRecoveryConfiguration.
    cbn [recoveryConfig params put_request]. rewrite Ha. split; reflexivity.
Qed.

Lemma put_validates_first_witness :
  let env := transition_starts in
  let p := [("uuid", JStr "u1"); ("force", JBool true)] in
  let lookup := RecoveryConfigurationGet [("uuid", prop p "uuid")] in
  let out := run (run_chain (put_chain []) (put_request p) empty_res) env in
  (truthy (prop p "uuid") = false ->
     response (fst out) = Some configuration_not_found /\ snd out = [])
  /\ (forall err, truthy (prop p "uuid") = true -> env [] lookup = inl err ->
        snd out = [lookup]
        /\ response (fst out)
           = if decide (statusCode err = Some 404)
             then Some configuration_not_found
             else Some {| status := default 500 (statusCode err);
                          body := error_body err; resp_headers := [] |})
  /\ (forall cfg, truthy (prop p "uuid") = true -> env [] lookup = inr cfg ->
        truthy (prop p "action") = false ->
        snd out = [lookup]
        /\ response (fst out)
           = Some {| status := 409;
                     body := error_body
                               (MissingParameterError
                                  "A value for the 'action' parameter must be provided");
                     resp_headers := [] |}).
Proof.
  apply (put_validates_first transition_starts
           [("uuid", JStr "u1"); ("force", JBool true)]).
Defined.

Lemma get_transition_params k p :
  k <> "uuid" -> k <> "force" -> k <> "pivtoken" -> k <> "concurrency" ->
  get k (transition_params p) = None.
Proof.
  intros H1 H2 H3 H4. unfold transition_params, set_if.
  destruct (truthy (prop p "concurrency")), (truthy (prop p "pivtoken")),
    (truthy (prop p "force"));
    rewrite ?get_set_ne by congruence; simpl;
    destruct (String.eqb k "uuid") eqn:E; try reflexivity;
    apply String.eqb_eq in E; congruence.
Qed.

Lemma transition_params_cn_uuid v p :
  transition_params (set "cn_uuid" v p) = transition_params p.
Proof.
  unfold transition_params, prop.
  rewrite !get_set_ne by discriminate. reflexivity.
Qed.

(** X18: the transition is started with the uuid and, exactly when they
    are truthy, [force] (as [true]), [pivtoken] and [concurrency] as given,
    and with nothing else.  A truthy [cn_uuid] parameter is stored on the
    request, as the one element of [req.params.targets], the other
    parameters being left as they are, but it never reaches the transition:
    a PUT with and without it starts the same transition. *)
Theorem transition_ignores_cn_uuid
    (env : Env) (req : Req) (res : Res) (t : list Call) (cfg : Obj) (v : JsVal) :
  recoveryConfig req = Some cfg ->
  truthy (prop (params req) "action") = true ->
  let p := params req in
  let when_truthy (x : JsVal) (y : JsVal) :=
    if truthy x then Some y else None in
  let with_cn := with_params (set "cn_uuid" v p) req in
  exists ps,
    snd (updateRecoveryConfiguration req res env t)
    = t ++ [Transition (prop p "action") ps]
    /\ snd (updateRecoveryConfiguration with_cn res env t)
       = t ++ [Transition (prop p "action") ps]
    /\ get "uuid" ps = Some (prop p "uuid")
    /\ get "force" ps = when_truthy (prop p "force") (JBool true)
    /\ get "pivtoken" ps = when_truthy (prop p "pivtoken") (prop p "pivtoken")
    /\ get "concurrency" ps
       = when_truthy (prop p "concurrency") (prop p "concurrency")
    /\ (forall k, k <> "uuid" -> k <> "force" -> k <> "pivtoken" ->
          k <> "concurrency" -> get k ps = None)
    /\ (truthy v = true ->
        let p' := params (fst (fst (fst (updateRecoveryConfiguration with_cn
                                           res env t)))) in
        get "targets" p' = Some (JArr [v])
        /\ forall k, k <> "targets" -> get k p' = get k (set "cn_uuid" v p)).
Proof.
  intros Hc Ha p when_truthy with_cn. exists (transition_params p).
  destruct (updateRecoveryConfiguration_transition env req res t cfg Hc Ha)
    as [r1 H1]. cbv zeta in H1. fold p in H1.
  assert (Ha' : truthy (prop (params with_cn) "action") = true).
  { cbn [params with_params with_cn]. unfold prop.
    rewrite get_set_ne by discriminate. exact Ha. }
  destruct (updateRecoveryConfiguration_transition env with_cn res t cfg Hc Ha')
    as [r2 H2]. cbv zeta in H2. cbn [params with_params with_cn] in H2.
  rewrite transition_params_cn_uuid in H2.
  assert (E : prop (set "cn_uuid" v p) "action" = prop p "action").
  { unfold prop. now rewrite get_set_ne by discriminate. }
  rewrite E in H2. rewrite H1.
  split; [reflexivity|]. split; [now rewrite H2|].
  assert (Hget : get "uuid" (transition_params p) = Some (prop p "uuid")
            /\ get "force" (transition_params p)
               = when_truthy (prop p "force") (JBool true)
            /\ get "pivtoken" (transition_params p)
               = when_truthy (prop p "pivtoken") (prop p "pivtoken")
            /\ get "concurrency" (transition_params p)
               = when_truthy (prop p "concurrency") (prop p "concurrency")).
  { unfold transition_params, set_if, when_truthy.
    destruct (truthy (prop p "concurrency")), (truthy (prop p "pivtoken")),
      (truthy (prop p "force"));
      repeat split;
      repeat first [rewrite get_set_eq | rewrite get_set_ne by discriminate];
      reflexivity. }
  destruct Hget as [Hg1 [Hg2 [Hg3 Hg4]]].
  split; [exact Hg1|]. split; [exact Hg2|].
  split; [exact Hg3|]. split; [exact Hg4|].
  split; [intros k; apply get_transition_params|].
  intros Hv. unfold updateRecoveryConfiguration.
  cbn [recoveryConfig params with_params with_cn]. rewrite Hc, E.
  fold p in Ha. rewrite Ha. cbn [negb].
  cbv [mbind mret M_bind M_ret call].
  assert (Hcn : prop (set "cn_uuid" v p) "cn_uuid" = v).
  { unfold prop. now rewrite get_set_eq. }
  rewrite Hcn.
  assert (Hset : set_if v "targets" (JArr [v]) (set "cn_uuid" v p)
                 = set "targets" (JArr [v]) (set "cn_uuid" v p)).
  { unfold set_if. now rewrite Hv. }
  rewrite Hset.
  match goal with
  | |- context [env t ?c] => destruct (env t c) as [[e|] [r|]]
  end; cbn [fst snd params];
    (split; [apply get_set_eq|intros k Hk; apply get_set_ne; congruence]).
Qed.

Lemma transition_ignores_cn_uuid_witness :
  let req :=
    {| route := "putrecoveryconfiguration"; params := put_params; headers := [];
       pivtoken := None; rawToken := None;
       recoveryConfig := Some (serialize config1) |} in
  let v := JStr "15966912-8fad-41cd-bd82-abe6468354b5" in
  let p := params req in
  let when_truthy (x : JsVal) (y : JsVal) :=
    if truthy x then Some y else None in
  let with_cn := with_params (set "cn_uuid" v p) req in
  exists ps,
    snd (updateRecoveryConfiguration req empty_res transition_starts [])
    = [] ++ [Transition (prop p "action") ps]
    /\ snd (updateRecoveryConfiguration with_cn empty_res transition_starts [])
       = [] ++ [Transition (prop p "action") ps]
    /\ get "uuid" ps = Some (prop p "uuid")
    /\ get "force" ps = when_truthy (prop p "force") (JBool true)
    /\ get "pivtoken" ps = when_truthy (prop p "pivtoken") (prop p "pivtoken")
    /\ get "concurrency" ps
       = when_truthy (prop p "concurrency") (prop p "concurrency")
    /\ (forall k, k <> "uuid" -> k <> "force" -> k <> "pivtoken" ->
          k <> "concurrency" -> get k ps = None)
    /\ (truthy v = true ->
        let p' := params (fst (fst (fst (updateRecoveryConfiguration with_cn
                                           empty_res transition_starts [])))) in
        get "targets" p' = Some (JArr [v])
        /\ forall k, k <> "targets" -> get k p' = get k (set "cn_uuid" v p)).
Proof.
  apply (transition_ignores_cn_uuid transition_starts
           {| route := "putrecoveryconfiguration"; params := put_params;
              headers := []; pivtoken := None; rawToken := None;
              recoveryConfig := Some (serialize config1) |}
           empty_res [] (serialize config1)
           (JStr "15966912-8fad-41cd-bd82-abe6468354b5")); reflexivity.
Defined.

End ConfigurationsMore.

(** ** Creating, deleting and watching recovery configurations
       (recovery-configurations.js) *)

Module ConfigurationsRoutes.
Import Js World Http RecoveryConfigurations Views Samples ObjectViews JsFacts.
Import TraceFacts RecoveryTransitions ConfigurationsMore.

Example create_over_existing :
  run (run_chain (configuration_chain "createrecoveryconfiguration")
         (configuration_request "createrecoveryconfiguration"
            [("uuid", JStr "u1"); ("template", JStr "AAAA"); ("state", JStr "active")])
         empty_res) transition_starts
  = ((with_params
        [("uuid", JStr "u1"); ("template", JStr "AAAA"); ("state", JStr "active")]
        {| route := "createrecoveryconfiguration"; params := []; headers := [];
           pivtoken := None; rawToken := None;
           recoveryConfig := Some (serialize config1) |},
      res_send 201 (JObj [("template", JStr "AAAA")]) empty_res, Continue),
     [RecoveryConfigurationGet [("uuid", JStr "u1")];
      RecoveryConfigurationCreate [("template", JStr "AAAA")]]).
Proof. reflexivity. Qed.

(** X19: creating a recovery configuration forwards the [template]
    parameter and nothing else to the model, and does not look at what was
    pre-loaded: a POST that names the uuid of an existing configuration
    creates one all the same and answers 201 with the new configuration. *)
Theorem create_ignores_existing (env : Env) (p : Obj) :
  let name := "createrecoveryconfiguration" in
  let lookup := RecoveryConfigurationGet [("uuid", prop p "uuid")] in
  let create := RecoveryConfigurationCreate [("template", prop p "template")] in
  let out := run (run_chain (configuration_chain name)
                    (configuration_request name p) empty_res) env in
  (forall new, truthy (prop p "uuid") = false -> env [] create = inr new ->
     snd out = [create]
     /\ response (fst out)
        = Some {| status := 201; body := JObj (serialize new);
                  resp_headers := [] |})
  /\ (forall cfg new, truthy (prop p "uuid") = true ->
        env [] lookup = inr cfg -> env [lookup] create = inr new ->
        snd out = [lookup; create]
        /\ response (fst out)
           = Some {| status := 201; body := JObj (serialize new);
                     resp_headers := [] |}).
Proof.
  intros name lookup create out. subst out name. unfold run.
  change (configuration_chain "createrecoveryconfiguration")
    with [preloadRecoveryConfiguration; createRecoveryConfiguration].
  split.
  - intros new Hu Hc.
    rewrite run_chain_cons, preloadRecoveryConfiguration_no_uuid by assumption.
    rewrite run_chain_cons. unfold createRecoveryConfiguration.
    cbv [mbind mret M_bind M_ret call].
    cbn [app params configuration_request]. fold create. rewrite Hc.
    split; reflexivity.
  - intros cfg new Hu Hl Hc.
    rewrite run_chain_cons,
      (preloadRecoveryConfiguration_found env
         (configuration_request "createrecoveryconfiguration" p) empty_res [] cfg)
      by assumption.
    rewrite run_chain_cons. unfold createRecoveryConfiguration.
    cbv [mbind mret M_bind M_ret call].
    cbn [app params configuration_request]. fold lookup create. rewrite Hc.
    split; reflexivity.
Qed.

Lemma create_ignores_existing_witness :
  let env := transition_starts in
  let p := [("uuid", JStr "u1"); ("template", JStr "AAAA")] in
  let name := "createrecoveryconfiguration" in
  let lookup := RecoveryConfigurationGet [("uuid", prop p "uuid")] in
  let create := RecoveryConfigurationCreate [("template", prop p "template")] in
  let out := run (run_chain (configuration_chain name)
                    (configuration_request name p) empty_res) env in
  (forall new, truthy (prop p "uuid") = false -> env [] create = inr new ->
     snd out = [create]
     /\ response (fst out)
        = Some {| status := 201; body := JObj (serialize new);
                  resp_headers := [] |})
  /\ (forall cfg new, truthy (prop p "uuid") = true ->
        env [] lookup = inr cfg -> env [lookup] create = inr new ->
        snd out = [lookup; create]
        /\ response (fst out)
           = Some {| status := 201; body := JObj (serialize new);
                     resp_headers := [] |}).
Proof.
  apply (create_ignores_existing transition_starts
           [("uuid", JStr "u1"); ("template", JStr "AAAA")]).
Defined.

(** X20: [deleteRecoveryConfiguration] answers 204 exactly when a
    configuration was pre-loaded and the model's delete of the request's uuid
    succeeded; without a pre-loaded configuration it answers "not found" and
    asks for no deletion; a failed deletion is passed on. *)
Theorem deleteRecoveryConfiguration_204_iff
    (env : Env) (req : Req) (res : Res) (t : list Call) :
  sent res = None ->
  let remove := RecoveryConfigurationDel (prop (params req) "uuid") in
  let out := deleteRecoveryConfiguration req res env t in
  (sent_with 204 (fst out)
   <-> recoveryConfig req <> None /\ env t remove = None)
  /\ (recoveryConfig req = None ->
      out = ((req, res,
              Fail (ResourceNotFoundError "recovery configuration not found")),
             t))
  /\ (forall e, recoveryConfig req <> None -> env t remove = Some e ->
        out = ((req, res, Fail e), t ++ [remove])).
Proof.
  intros Hs remove out. subst out. unfold deleteRecoveryConfiguration, sent_with.
  destruct (recoveryConfig req) as [cfg|].
  - cbv [mbind mret M_bind M_ret call]. fold remove.
    destruct (env t remove) as [e|]; cbn [fst snd res_send sent]; rewrite ?Hs;
      (split; [|split]).
    + split; [intros [b Hb]; discriminate|intros [_ H]; discriminate].
    + intros H. discriminate.
    + now intros e' _ [= ->].
    + split; [auto|]. intros _. now exists JUndefined.
    + intros H. discriminate.
    + intros e' _ H. discriminate.
  - cbv [mret M_ret]. cbn [fst snd]. rewrite Hs. split; [|split].
    + split; [intros [b Hb]; discriminate|intros [H _]; congruence].
    + reflexivity.
    + intros e H. congruence.
Qed.

Lemma deleteRecoveryConfiguration_204_iff_witness :
  let req :=
    {| route := "delrecoveryconfiguration"; params := [("uuid", JStr "u1")];
       headers := []; pivtoken := None; rawToken := None;
       recoveryConfig := Some (serialize config1) |} in
  let remove := RecoveryConfigurationDel (prop (params req) "uuid") in
  let out := deleteRecoveryConfiguration req empty_res empty_store [] in
  (sent_with 204 (fst out)
   <-> recoveryConfig req <> None /\ empty_store [] remove = None)
  /\ (recoveryConfig req = None ->
      out = ((req, empty_res,
              Fail (ResourceNotFoundError "recovery configuration not found")),
             []))
  /\ (forall e, recoveryConfig req <> None -> empty_store [] remove = Some e ->
        out = ((req, empty_res, Fail e), [] ++ [remove])).
Proof.
  apply (deleteRecoveryConfiguration_204_iff empty_store
           {| route := "delrecoveryconfiguration"; params := [("uuid", JStr "u1")];
              headers := []; pivtoken := None; rawToken := None;
              recoveryConfig := Some (serialize config1) |} empty_res []).
  reflexivity.
Defined.

(** X21: the watch route answers 404 "recovery configuration not found"
    when the configuration is not found; when it exists, none of the route's
    handlers sends a response or reports an error, and the lookup is the
    only call. *)
Theorem watch_sends_nothing (env : Env) (p : Obj) :
  let name := "watchrecoveryconfiguration" in
  let lookup := RecoveryConfigurationGet [("uuid", prop p "uuid")] in
  let out := run (run_chain (configuration_chain name)
                    (configuration_request name p) empty_res) env in
  (truthy (prop p "uuid") = false ->
     response (fst out) = Some configuration_not_found /\ snd out = [])
  /\ (forall err, truthy (prop p "uuid") = true -> env [] lookup = inl err ->
        statusCode err = Some 404 ->
        response (fst out) = Some configuration_not_found /\ snd out = [lookup])
  /\ (forall cfg, truthy (prop p "uuid") = true -> env [] lookup = inr cfg ->
        response (fst out) = None
        /\ snd (fst out) = Continue
        /\ snd out = [lookup]).
Proof.
  intros name lookup out. subst out name. unfold run.
  change (configuration_chain "watchrecoveryconfiguration")
    with [preloadRecoveryConfiguration; watchRecoveryConfiguration].
  split; [|split].
  - intros Hu.
    rewrite run_chain_cons, preloadRecoveryConfiguration_no_uuid by assumption.
    rewrite run_chain_cons. split; reflexivity.
  - intros err Hu He H404.
    rewrite run_chain_cons,
      (preloadRecoveryConfiguration_error env
         (configuration_request "watchrecoveryconfiguration" p) empty_res [] err)
      by assumption.
    destruct (decide (statusCode err = Some 404)); [|contradiction].
    rewrite run_chain_cons. split; reflexivity.
  - intros cfg Hu He.
    rewrite run_chain_cons,
      (preloadRecoveryConfiguration_found env
         (configuration_request "watchrecoveryconfiguration" p) empty_res [] cfg)
      by assumption.
    rewrite run_chain_cons. repeat split.
Qed.

Lemma watch_sends_nothing_witness :
  let env := transition_starts in
  let p := [("uuid", JStr "u1")] in
  let name := "watchrecoveryconfiguration" in
  let lookup := RecoveryConfigurationGet [("uuid", prop p "uuid")] in
  let out := run (run_chain (configuration_chain name)
                    (configuration_request name p) empty_res) env in
  (truthy (prop p "uuid") = false ->
     response (fst out) = Some configuration_not_found /\ snd out = [])
  /\ (forall err, truthy (prop p "uuid") = true -> env [] lookup = inl err ->
        statusCode err = Some 404 ->
        response (fst out) = Some configuration_not_found /\ snd out = [lookup])
  /\ (forall cfg, truthy (prop p "uuid") = true -> env [] lookup = inr cfg ->
        response (fst out) = None
        /\ snd (fst out) = Continue
        /\ snd out = [lookup]).
Proof.
  apply (watch_sends_nothing transition_starts [("uuid", JStr "u1")]).
Defined.

End ConfigurationsRoutes.
